(** * DebateCraft: the turn pipeline

    A shallow embedding of the debate page ([handleSendMessage],
    [playTTS], [queueAudio], [playNextInQueue], [stopAudio]) and of the
    edge functions debate-start and debate-continue, with the properties
    of the turn pipeline stated over it.

    The services outside the code (embedding, vector index, language
    model, speech synthesis, clock, [JSON.parse]) are parameters: a
    handler is a function of what they answer, and returns what it
    replies together with the requests it sent. Values that cross the
    wire have the types the TypeScript interfaces and the writing side
    give them. *)

From Stdlib Require Import NArith QArith Lia String Ascii.
From stdpp Require Import base list gmap pretty.

Local Open Scope nat_scope.

(** ** JavaScript strings

    A string is its sequence of UTF-16 code units; the operations below
    are those of [String.prototype] and [Array.prototype] the code uses. *)

Module JS.

Abbreviation jsstring := (list N).

(** A literal of the source, as code units. *)
Definition u (s : string) : jsstring := N_of_ascii <$> list_ascii_of_string s.

(** The characters [\s] matches and [trim] removes: WhiteSpace and
    LineTerminator of the language definition. *)
Definition is_space (c : N) : bool :=
  ((9 <=? c) && (c <=? 13) || (c =? 32) || (c =? 160) || (c =? 0x1680)
   || (0x2000 <=? c) && (c <=? 0x200a) || (c =? 0x2028) || (c =? 0x2029)
   || (c =? 0x202f) || (c =? 0x205f) || (c =? 0x3000) || (c =? 0xfeff))%N.

(** The characters [.] does not match. *)
Definition is_line_terminator (c : N) : bool :=
  ((c =? 10) || (c =? 13) || (c =? 0x2028) || (c =? 0x2029))%N.

Fixpoint trimStart (s : jsstring) : jsstring :=
  match s with
  | c :: s' => if is_space c then trimStart s' else s
  | [] => []
  end.

Definition trimEnd (s : jsstring) : jsstring := reverse (trimStart (reverse s)).

Definition trim (s : jsstring) : jsstring := trimEnd (trimStart s).

(** [s.startsWith(p)] *)
Fixpoint startsWith (p s : jsstring) : bool :=
  match p, s with
  | [], _ => true
  | a :: p', b :: s' => (a =? b)%N && startsWith p' s'
  | _ :: _, [] => false
  end.

(** [s.split('\n')]: the segments between line feeds, at least one. *)
Fixpoint split_lines (s : jsstring) : list jsstring :=
  match s with
  | [] => [[]]
  | c :: s' =>
      if (c =? 10)%N then [] :: split_lines s'
      else match split_lines s' with
           | l :: ls => (c :: l) :: ls
           | [] => [[c]]
           end
  end.

(** [parts.join(sep)] *)
Fixpoint join (sep : jsstring) (parts : list jsstring) : jsstring :=
  match parts with
  | [] => []
  | [p] => p
  | p :: ps => p ++ sep ++ join sep ps
  end.

(** A non-negative integer inside a template literal. *)
Definition show (n : nat) : jsstring := u (pretty n).

(** [a.slice(-k)]: the last [k] elements, all of them when there are fewer. *)
Definition slice_last {A} (k : nat) (a : list A) : list A := drop (length a - k) a.

(** [a.slice(0, -k)]: all but the last [k] elements. *)
Definition slice_but_last {A} (k : nat) (a : list A) : list A := take (length a - k) a.

(** A string is truthy when it is not empty. *)
Definition truthy (s : jsstring) : bool := negb (bool_decide (s = [])).

End JS.

Import JS.

(** ** The debate page: sending a message and reading the answer stream

    The component [Debate]: its state, [handleSendMessage] and the read
    loop over the event stream of debate-continue. *)

Module Page.

Inductive role := user | assistant.

Record Message := { msg_role : role; content : jsstring }.

Record Source := {
  id : jsstring;
  score : Q;
  source_number : nat;
  title : jsstring;
  summary : jsstring;
  page_no : option N;
  date : option jsstring;
  url : option jsstring;
}.

Record SourceGroup := { sg_turnIndex : nat; sources : list Source }.

(** An array element; [None] is a hole left by an assignment past the end. *)
Abbreviation slot := (option Message).

(** [a[i] = x] *)
Definition array_set {A} (a : list (option A)) (i : nat) (x : A) : list (option A) :=
  if decide (i < length a) then <[i := Some x]> a
  else a ++ replicate (i - length a) None ++ [Some x].

(** The fields of a decoded event the handler reads. [p_done] is the
    truthiness of [parsed.done]; [p_fullText] is [None] when the field is
    absent. *)
Record payload := {
  p_done : bool;
  p_fullText : option jsstring;
  p_retrieved : list Source;
  p_turn_index : nat;
}.

(** The body of the POST to debate-continue. *)
Record request := {
  session_id : jsstring;
  user_reply : jsstring;
  turn_index : nat;
  category : jsstring;
  debate_experience : jsstring;
  ai_level : jsstring;
  conversation_history : list slot;
}.

(** How reading the body ends: the end of the stream, or a rejected read. *)
Inductive ending := Eof | ReadFails.

(** What [fetch] gives: a rejection, or a response with its status and,
    when it has a body, the decoded chunks in arrival order. *)
Inductive response :=
| Rejected
| Response (ok : bool) (body : option (list jsstring * ending)).

(** The state of the component; [topic] is its [category]. *)
Record page := {
  conversation : list slot;
  sourceGroups : list SourceGroup;
  sessionId : jsstring;
  topic : jsstring;
  debateExperience : jsstring;
  aiLevel : jsstring;
  turnIndex : nat;
  userInput : jsstring;
  isLoading : bool;
}.

(** [useState(location.state?.turn_index || 1)] *)
Definition initial_turnIndex (t : option nat) : nat :=
  match t with
  | Some (S n) => S n
  | _ => 1
  end.

Definition is_terminal (c : N) : bool := ((c =? 46) || (c =? 33) || (c =? 63))%N.

(** [sentenceBuffer.match(/^(.*?[.!?](?:\s|$))/)]: the length of the
    match, which is also the length of its only group. The lazy prefix
    stops at the first terminal mark that is followed by white space or by
    the end of the buffer, and cannot cross a line terminator. *)
Fixpoint sentence_match (buf : jsstring) : option nat :=
  match buf with
  | [] => None
  | c :: rest =>
      match rest with
      | [] => if is_terminal c then Some 1 else None
      | d :: _ =>
          if is_terminal c && is_space d then Some 2
          else if is_line_terminator c then None
          else S <$> sentence_match rest
      end
  end.

(** The variables of the read loop, with the conversation as the pending
    state updates leave it and the texts handed to [playTTS] so far. *)
Record reading := {
  fullText : jsstring;
  sentenceBuffer : jsstring;
  metadata : option payload;
  shown : list slot;
  spoken : list jsstring;
}.

(** The branch taken for an event with a truthy [fullText]. *)
Definition on_fullText (aiMessageIndex : nat) (r : reading) (ft : jsstring) : reading :=
  let previousLength := length (fullText r) in
  let newText := drop previousLength ft in
  let buf := sentenceBuffer r ++ newText in
  let updated := array_set (shown r) aiMessageIndex {| msg_role := assistant; content := ft |} in
  match sentence_match buf with
  | Some n =>
      let completeSentence := trim (take n buf) in
      {| fullText := ft; sentenceBuffer := drop n buf; metadata := metadata r;
         shown := updated;
         spoken := if truthy completeSentence then spoken r ++ [completeSentence]
                   else spoken r |}
  | None =>
      {| fullText := ft; sentenceBuffer := buf; metadata := metadata r;
         shown := updated; spoken := spoken r |}
  end.

Definition on_parsed (aiMessageIndex : nat) (r : reading) (parsed : payload) : reading :=
  if p_done parsed then
    {| fullText := fullText r; sentenceBuffer := sentenceBuffer r;
       metadata := Some parsed; shown := shown r; spoken := spoken r |}
  else
    match p_fullText parsed with
    | Some ft => if truthy ft then on_fullText aiMessageIndex r ft else r
    | None => r
    end.

Section Handler.

(** [JSON.parse] followed by the first property read: [None] when either
    throws (a syntax error, or the value [null]). *)
Variable JSON_parse : jsstring -> option payload.

(** The endpoint behind [fetch]. *)
Variable fetch : request -> response.

Definition on_line (aiMessageIndex : nat) (r : reading) (line : jsstring) : reading :=
  if startsWith (u "data: ") line then
    let data := trim (drop 6 line) in
    match JSON_parse data with
    | Some parsed => on_parsed aiMessageIndex r parsed
    | None => r
    end
  else r.

Definition on_chunk (aiMessageIndex : nat) (r : reading) (chunk : jsstring) : reading :=
  foldl (on_line aiMessageIndex) r (split_lines chunk).

Definition read_loop (aiMessageIndex : nat) (r : reading) (chunks : list jsstring) : reading :=
  foldl (on_chunk aiMessageIndex) r chunks.

(** The flush after the loop. *)
Definition flush (r : reading) : list jsstring :=
  if truthy (trim (sentenceBuffer r)) then spoken r ++ [trim (sentenceBuffer r)]
  else spoken r.

(** What a call leaves behind: the page state, the texts handed to
    [playTTS] in call order, and whether the failure toast was shown. *)
Record outcome := {
  after : page;
  playTTS_calls : list jsstring;
  failed : bool;
}.

Definition with_conversation (st : page) (c : list slot) (loading : bool) (input : jsstring)
    (groups : list SourceGroup) (t : nat) : page :=
  {| conversation := c; sourceGroups := groups; sessionId := sessionId st;
     topic := topic st; debateExperience := debateExperience st; aiLevel := aiLevel st;
     turnIndex := t; userInput := input; isLoading := loading |}.

(** The [catch] and [finally] blocks. *)
Definition rollback (st : page) (c : list slot) (calls : list jsstring) : outcome :=
  {| after := with_conversation st (slice_but_last 2 c) false [] (sourceGroups st) (turnIndex st);
     playTTS_calls := calls; failed := true |}.

Definition handleSendMessage (st : page) : outcome :=
  if negb (truthy (trim (userInput st))) || isLoading st then
    {| after := st; playTTS_calls := []; failed := false |}
  else
    let messageText := userInput st in
    let userMessage := {| msg_role := user; content := messageText |} in
    let aiMessageIndex := length (conversation st) + 1 in
    let c0 := (conversation st ++ [Some userMessage])
                ++ [Some {| msg_role := assistant; content := [] |}] in
    let r0 := {| fullText := []; sentenceBuffer := []; metadata := None;
                 shown := c0; spoken := [] |} in
    match fetch {| session_id := sessionId st; user_reply := messageText;
                   turn_index := turnIndex st; category := topic st;
                   debate_experience := debateExperience st; ai_level := aiLevel st;
                   conversation_history := conversation st |} with
    | Rejected => rollback st c0 []
    | Response false _ => rollback st c0 []
    | Response true None => rollback st c0 []
    | Response true (Some (chunks, fin)) =>
        let r := read_loop aiMessageIndex r0 chunks in
        match fin with
        | ReadFails => rollback st (shown r) (spoken r)
        | Eof =>
            let calls := flush r in
            match metadata r with
            | Some m =>
                {| after := with_conversation st (shown r) false []
                              (sourceGroups st ++ [{| sg_turnIndex := p_turn_index m;
                                                      sources := p_retrieved m |}])
                              (p_turn_index m);
                   playTTS_calls := calls; failed := false |}
            | None =>
                {| after := with_conversation st (shown r) false [] (sourceGroups st)
                              (turnIndex st);
                   playTTS_calls := calls; failed := false |}
            end
        end
    end.

End Handler.

End Page.

(** ** The debate page: speech synthesis and the playback queue *)

Module Player.

(** The object URL created for the audio of the k-th text handed to
    [playTTS]; it is named by k. *)
Abbreviation clip := nat.

(** The audio element. The position within the clip is not tracked. *)
Record audio_el := { src : clip; paused : bool }.

(** [audioQueueRef], [isPlayingQueueRef], [audioRef], [isPlayingAudio].
    [inFlight] holds the synthesis requests sent and not yet returned;
    [started] records the clips handed to [play()], in order. *)
Record player := {
  audioQueue : list clip;
  isPlayingQueue : bool;
  audio : option audio_el;
  isPlayingAudio : bool;
  inFlight : list clip;
  started : list clip;
}.

Definition idle : player :=
  {| audioQueue := []; isPlayingQueue := false; audio := None;
     isPlayingAudio := false; inFlight := []; started := [] |}.

Definition playNextInQueue (p : player) : player :=
  match audioQueue p with
  | [] =>
      {| audioQueue := []; isPlayingQueue := false; audio := audio p;
         isPlayingAudio := false; inFlight := inFlight p; started := started p |}
  | audioUrl :: rest =>
      {| audioQueue := rest; isPlayingQueue := true;
         audio := Some {| src := audioUrl; paused := false |};
         isPlayingAudio := true; inFlight := inFlight p;
         started := started p ++ [audioUrl] |}
  end.

Definition queueAudio (audioUrl : clip) (p : player) : player :=
  let p' := {| audioQueue := audioQueue p ++ [audioUrl];
               isPlayingQueue := isPlayingQueue p; audio := audio p;
               isPlayingAudio := isPlayingAudio p; inFlight := inFlight p;
               started := started p |} in
  if isPlayingQueue p then p' else playNextInQueue p'.

Definition stopAudio (p : player) : player :=
  {| audioQueue := []; isPlayingQueue := false;
     audio := (fun a => {| src := src a; paused := true |}) <$> audio p;
     isPlayingAudio := false; inFlight := inFlight p; started := started p |}.

(** How the synthesis request of one [playTTS] call ends. *)
Inductive synthesis := Synthesized | NotOk | Throws.

(** [playTTS] up to its [await fetch]: the request for the k-th text is sent. *)
Definition playTTS_called (k : clip) (p : player) : player :=
  {| audioQueue := audioQueue p; isPlayingQueue := isPlayingQueue p; audio := audio p;
     isPlayingAudio := isPlayingAudio p; inFlight := inFlight p ++ [k];
     started := started p |}.

(** [playTTS] from the moment its request returns. *)
Definition playTTS_returns (k : clip) (res : synthesis) (p : player) : player :=
  let p' := {| audioQueue := audioQueue p; isPlayingQueue := isPlayingQueue p;
               audio := audio p; isPlayingAudio := isPlayingAudio p;
               inFlight := filter (fun j => j <> k) (inFlight p);
               started := started p |} in
  match res with
  | Synthesized => queueAudio k p'
  | NotOk | Throws => p'
  end.

(** What happens on the page: the k-th text is handed to [playTTS], the
    request for the k-th text returns, the element reports the end of its
    clip or an error, [play()] rejects, or the user stops the audio. *)
Inductive event :=
| Requests (k : clip)
| Returns (k : clip) (res : synthesis)
| Ended
| AudioError
| PlayRejected
| Stop.

Definition step (p : player) (e : event) : player :=
  match e with
  | Requests k => playTTS_called k p
  | Returns k res => playTTS_returns k res p
  | Ended | AudioError | PlayRejected => playNextInQueue p
  | Stop => stopAudio p
  end.

Definition run (p : player) (tr : list event) : player := foldl step p tr.

(** The texts handed to [playTTS], in call order. *)
Fixpoint requests (tr : list event) : list clip :=
  match tr with
  | Requests k :: tr' => k :: requests tr'
  | _ :: tr' => requests tr'
  | [] => []
  end.

(** The clips whose synthesis succeeded, in the order the requests returned. *)
Fixpoint completions (tr : list event) : list clip :=
  match tr with
  | Returns k Synthesized :: tr' => k :: completions tr'
  | _ :: tr' => completions tr'
  | [] => []
  end.

Definition is_stop (e : event) : bool :=
  match e with Stop => true | _ => false end.

End Player.

(** ** The edge functions: shared data and the outside world *)

Module Edge.

Abbreviation vector := (list Q).

(** The metadata of a match, each field absent or present. *)
Record metadata_t := {
  md_summary : option jsstring;
  md_title : option jsstring;
  md_text : option jsstring;
  md_page : option N;
  md_date : option jsstring;
  md_url : option jsstring;
}.

Record match_t := { m_id : jsstring; m_score : Q; m_metadata : option metadata_t }.

(** The body of a Pinecone query. *)
Record query := {
  q_vector : vector;
  topK : nat;
  includeMetadata : bool;
  namespace : jsstring;
}.

(** The single vector of an upsert, with its namespace; [up_extra] holds
    the category, experience and level that debate-start adds to the
    metadata of the opening turn. *)
Record upsert := {
  up_id : jsstring;
  up_values : vector;
  up_role : jsstring;
  up_text : jsstring;
  up_turn_index : nat;
  up_timestamp : jsstring;
  up_extra : option (jsstring * jsstring * jsstring);
  up_namespace : jsstring;
}.

(** The payload of a generation chunk, as far as the handlers read it. *)
Record part := { text : option jsstring }.
Record content_t := { parts : option (list part) }.
Record candidate := { content : option content_t }.
Record chunk := { candidates : option (list candidate) }.

(** [parsed.candidates?.[0]?.content?.parts?.[0]?.text] *)
Definition chunk_text (parsed : chunk) : option jsstring :=
  cs ← candidates parsed; c ← head cs; k ← content c;
  ps ← parts k; p ← head ps; text p.

(** What awaiting a [fetch] gives: a rejection, or a response with its
    status, its text (read when the status is not ok) and its decoded
    body, [None] when the body cannot be decoded as the handler expects. *)
Inductive fetched (A : Type) :=
| Throws
| Resp (ok : bool) (errorText : jsstring) (body : option A).
Arguments Throws {A}.
Arguments Resp {A} ok errorText body.

(** The requests a handler sends, in the order it sends them. *)
Inductive call :=
| Embed (text : jsstring)
| Query (q : query)
| Generate (prompt : jsstring)
| Upsert (v : upsert).

(** The environment and the services outside the function. The clock is
    read by [toISOString k] at the k-th timestamp of a request.
    [JSON_parse] is [JSON.parse] followed by the first property read:
    [None] when either throws (a syntax error, or the value [null]).
    [vectors_upsert] tells whether an awaited upsert request resolves. *)
Record World := {
  GEMINI_API_KEY : option jsstring;
  PINECONE_API_KEY : option jsstring;
  embedContent : jsstring -> fetched vector;
  pinecone_query : query -> fetched (option (list match_t));
  streamGenerateContent : jsstring -> fetched (list jsstring * Page.ending);
  generateContent : jsstring -> fetched chunk;
  vectors_upsert : upsert -> bool;
  JSON_parse : jsstring -> option chunk;
  toISOString : nat -> jsstring;
  randomUUID : jsstring;
}.

(** The errors the handlers throw, and [Thrown] for those of the runtime
    (a rejected request, an undecodable body). *)
Inductive error :=
| MissingKeys
| EmbeddingFailed (errorText : jsstring)
| PineconeQueryFailed (errorText : option jsstring)
| LLMFailed (errorText : jsstring)
| InvalidModelResponse
| Thrown.

Definition missing (key : option jsstring) : bool :=
  match key with
  | Some k => negb (truthy k)
  | None => true
  end.

(** [x || d] for an optional string. *)
Definition or_else (x : option jsstring) (d : jsstring) : jsstring :=
  match x with
  | Some s => if truthy s then s else d
  | None => d
  end.

Definition quote : jsstring := [34%N].

Definition source_summary (m : match_t) : jsstring :=
  or_else (m_metadata m ≫= md_summary) (u "No summary available").

(** [`[Source ${idx + 1}]: ${summary}`] *)
Definition source_line (idx : nat) (m : match_t) : jsstring :=
  u "[Source " ++ show (idx + 1) ++ u "]: " ++ source_summary m.

(** The entry of the [retrieved] list for the match at [idx]. *)
Definition to_source (idx : nat) (m : match_t) : Page.Source :=
  {| Page.id := m_id m;
     Page.score := m_score m;
     Page.source_number := idx + 1;
     Page.title := or_else (m_metadata m ≫= md_title) (u "Source " ++ show (idx + 1));
     Page.summary := source_summary m;
     Page.page_no := m_metadata m ≫= md_page;
     Page.date := m_metadata m ≫= md_date;
     Page.url := m_metadata m ≫= md_url |}.

(** [`${session}::turn::${index}`] *)
Definition turn_id (session : jsstring) (index : nat) : jsstring :=
  session ++ u "::turn::" ++ show index.

End Edge.

(** ** debate-continue

    The handler for a POST with a well-typed body. *)

Module Continue.

Import Edge.

Record HistoryMessage := { h_role : jsstring; h_content : jsstring }.

Record ContinueDebateRequest := {
  session_id : jsstring;
  user_reply : jsstring;
  turn_index : nat;
  category : jsstring;
  debate_experience : jsstring;
  ai_level : jsstring;
  conversation_history : list HistoryMessage;
}.

(** The events the function writes to its response stream. *)
Inductive sse :=
| Delta (text fullText : jsstring)
| Done (fullText : jsstring) (retrieved : list Page.Source) (turn_index : nat).

(** How the response stream ends: [controller.close()] or [controller.error]. *)
Inductive closing := Closed | Errored.

Inductive http :=
| Status500 (e : error)
| EventStream (events : list sse) (fin : closing).

(** *** Retrieval over both scopes *)

Definition corpus_query (embedding : vector) : query :=
  {| q_vector := embedding; topK := 7; includeMetadata := true; namespace := [] |}.

Definition session_query (embedding : vector) (session : jsstring) : query :=
  {| q_vector := embedding; topK := 3; includeMetadata := true; namespace := session |}.

(** The two requests handed to [Promise.all]: both are sent before either
    answer is looked at. *)
Definition retrieval_calls (embedding : vector) (session : jsstring) : list call :=
  [Query (corpus_query embedding); Query (session_query embedding session)].

Definition retrieve (W : World) (embedding : vector) (session : jsstring)
    : error + (list match_t * list match_t) :=
  match pinecone_query W (corpus_query embedding),
        pinecone_query W (session_query embedding session) with
  | Resp corpus_ok _ corpusData, Resp session_ok _ sessionData =>
      if negb corpus_ok || negb session_ok then inl (PineconeQueryFailed None)
      else match corpusData, sessionData with
           | Some corpus, Some session => inr (default [] corpus, default [] session)
           | _, _ => inl Thrown
           end
  | _, _ => inl Thrown
  end.

(** *** The prompt *)

Definition sessionContext (sessionMatches : list match_t) : jsstring :=
  join (u "
") ((fun m => u "[Previous Turn]: " ++ or_else (m_metadata m ≫= md_text) []) <$> sessionMatches).

Definition corpusContext (corpusMatches : list match_t) : jsstring :=
  join (u "

") (imap source_line corpusMatches).

Definition history_line (msg : HistoryMessage) : jsstring :=
  (if bool_decide (h_role msg = u "user") then u "User" else u "AI")
  ++ u ": " ++ h_content msg.

Definition conversationSummary (history : list HistoryMessage) : jsstring :=
  join (u "
") (history_line <$> slice_last 6 history).

Definition systemPrompt (corpusMatches sessionMatches : list match_t)
    (req : ContinueDebateRequest) : jsstring :=
  u "You are an expert debater engaged in an ongoing debate.

CRITICAL RULES:
- You have access to "
  ++ show (length corpusMatches)
  ++ u " sources
- ONLY cite sources that exist: [Source 1] through [Source "
  ++ show (length corpusMatches)
  ++ u "]
- NEVER reference source numbers higher than "
  ++ show (length corpusMatches)
  ++ u "
- Use the retrieved context and conversation history, citing sources as [Source N] when using them
- If the retrieved sources are insufficient or don't provide accurate information, you may use your general knowledge
- Always cite sources when using information from them: e.g., "
  ++ quote
  ++ u "Research indicates [Source 2] that..."
  ++ quote
  ++ u " or "
  ++ quote
  ++ u "[Source 5] demonstrates..."
  ++ quote
  ++ u "
- When using general knowledge (not from sources), do not cite a source number
- Address the user's latest point directly
- Build on previous arguments when relevant
- CRITICAL: Your response MUST be between 100-150 words. Count your words carefully.

Retrieved Corpus Context (all "
  ++ show (length corpusMatches)
  ++ u " sources):
"
  ++ corpusContext corpusMatches
  ++ u "

Recent Session Context:
"
  ++ sessionContext sessionMatches
  ++ u "

Recent Conversation:
"
  ++ conversationSummary (conversation_history req)
  ++ u "

Debate Topic: "
  ++ category req
  ++ u "
User Experience: "
  ++ debate_experience req
  ++ u "
AI Difficulty: "
  ++ ai_level req.

Definition userPrompt (req : ContinueDebateRequest) : jsstring :=
  u "User's latest argument: "
  ++ quote
  ++ user_reply req
  ++ quote
  ++ u "

Provide a counterargument addressing their points in 100-150 words. Cite sources inline when using them.".

(** The text of the generation request: [`${systemPrompt}\n\n${userPrompt}`]. *)
Definition prompt (corpusMatches sessionMatches : list match_t)
    (req : ContinueDebateRequest) : jsstring :=
  systemPrompt corpusMatches sessionMatches req ++ u "

" ++ userPrompt req.

(** *** Forwarding the generation stream *)

(** [fullAnswer] and the events enqueued so far. *)
Record forwarding := { fullAnswer : jsstring; enqueued : list sse }.

Definition on_line (W : World) (f : forwarding) (line : jsstring) : forwarding :=
  if startsWith (u "data: ") line then
    let data := drop 6 line in
    if bool_decide (data = u "[DONE]") then f
    else
      match JSON_parse W data with
      | Some parsed =>
          match chunk_text parsed with
          | Some text =>
              if truthy text then
                {| fullAnswer := fullAnswer f ++ text;
                   enqueued := enqueued f ++ [Delta text (fullAnswer f ++ text)] |}
              else f
          | None => f
          end
      | None => f
      end
  else f.

Definition on_chunk (W : World) (f : forwarding) (chunk : jsstring) : forwarding :=
  foldl (on_line W) f (split_lines chunk).

Definition forward (W : World) (chunks : list jsstring) : forwarding :=
  foldl (on_chunk W) {| fullAnswer := []; enqueued := [] |} chunks.

(** *** Writing the two turns to the session namespace *)

Definition user_upsert (W : World) (req : ContinueDebateRequest) (embedding : vector) : upsert :=
  {| up_id := turn_id (session_id req) (turn_index req);
     up_values := embedding;
     up_role := u "user";
     up_text := user_reply req;
     up_turn_index := turn_index req;
     up_timestamp := toISOString W 0;
     up_extra := None;
     up_namespace := session_id req |}.

Definition ai_upsert (W : World) (req : ContinueDebateRequest) (answer : jsstring)
    (aiEmbedding : vector) : upsert :=
  {| up_id := turn_id (session_id req) (turn_index req + 1);
     up_values := aiEmbedding;
     up_role := u "assistant";
     up_text := answer;
     up_turn_index := turn_index req + 1;
     up_timestamp := toISOString W 1;
     up_extra := None;
     up_namespace := session_id req |}.

(** The body of [start(controller)]: the events, how the stream ends, and
    the requests sent meanwhile. *)
Definition stream (W : World) (req : ContinueDebateRequest) (embedding : vector)
    (corpusMatches : list match_t) (body : option (list jsstring * Page.ending))
    : http * list call :=
  match body with
  | None => (EventStream [] Closed, [])
  | Some (chunks, Page.ReadFails) => (EventStream (enqueued (forward W chunks)) Errored, [])
  | Some (chunks, Page.Eof) =>
      let f := forward W chunks in
      let events := enqueued f ++ [Done (fullAnswer f) (imap to_source corpusMatches)
                                        (turn_index req + 1)] in
      let answer := fullAnswer f in
      let sent := [Upsert (user_upsert W req embedding); Embed answer] in
      match embedContent W answer with
      | Resp _ _ (Some aiEmbedding) =>
          (EventStream events Closed, sent ++ [Upsert (ai_upsert W req answer aiEmbedding)])
      | _ => (EventStream events Errored, sent)
      end
  end.

(** *** The handler *)

Definition serve (W : World) (req : ContinueDebateRequest) : http * list call :=
  if missing (GEMINI_API_KEY W) || missing (PINECONE_API_KEY W) then
    (Status500 MissingKeys, [])
  else
    match embedContent W (user_reply req) with
    | Throws => (Status500 Thrown, [Embed (user_reply req)])
    | Resp false errorText _ => (Status500 (EmbeddingFailed errorText), [Embed (user_reply req)])
    | Resp true _ None => (Status500 Thrown, [Embed (user_reply req)])
    | Resp true _ (Some embedding) =>
        let sent := Embed (user_reply req) :: retrieval_calls embedding (session_id req) in
        match retrieve W embedding (session_id req) with
        | inl e => (Status500 e, sent)
        | inr (corpusMatches, sessionMatches) =>
            let text := prompt corpusMatches sessionMatches req in
            let sent := sent ++ [Generate text] in
            match streamGenerateContent W text with
            | Throws => (Status500 Thrown, sent)
            | Resp false errorText _ => (Status500 (LLMFailed errorText), sent)
            | Resp true _ body =>
                let '(res, more) := stream W req embedding corpusMatches body in
                (res, sent ++ more)
            end
        end
    end.

(** What the page's [fetch] receives for a reply of the function: status
    500 is not ok and carries the error as its body; a stream arrives as
    the chunks [chunks_of] cuts it into. *)
Definition deliver (chunks_of : list sse -> list jsstring) (error_body : error -> jsstring)
    (res : http) : Page.response :=
  match res with
  | Status500 e => Page.Response false (Some ([error_body e], Page.Eof))
  | EventStream events Closed => Page.Response true (Some (chunks_of events, Page.Eof))
  | EventStream events Errored => Page.Response true (Some (chunks_of events, Page.ReadFails))
  end.

End Continue.

(** ** debate-start

    The handler for a POST with a well-typed body. *)

Module Start.

Import Edge.

Record StartDebateRequest := {
  category : jsstring;
  debate_experience : jsstring;
  ai_level : jsstring;
  opening_argument : jsstring;
  session_id : option jsstring;
}.

(** The reply with status 200. *)
Record started := {
  answer : jsstring;
  retrieved : list Page.Source;
  r_session_id : jsstring;
  r_turn_index : nat;
}.

Definition turnIndex : nat := 0.

Definition corpus_query (embedding : vector) : query :=
  {| q_vector := embedding; topK := 10; includeMetadata := true; namespace := [] |}.

Definition context (matches : list match_t) : jsstring :=
  join (u "

") (imap source_line matches).

Definition systemPrompt (matches : list match_t) (req : StartDebateRequest) : jsstring :=
  u "You are an expert debater. Your task is to provide a concise, well-reasoned counterargument to the user's position.

CRITICAL RULES:
- You have access to "
  ++ show (length matches)
  ++ u " sources
- ONLY cite sources that exist: [Source 1] through [Source "
  ++ show (length matches)
  ++ u "]
- NEVER reference source numbers higher than "
  ++ show (length matches)
  ++ u "
- Use the retrieved context provided below, citing sources as [Source N] when using them
- If the retrieved sources are insufficient or don't provide accurate information for a specific point, you may use your general knowledge
- Always cite sources when using information from them: e.g., "
  ++ quote
  ++ u "According to [Source 1], ..."
  ++ quote
  ++ u " or "
  ++ quote
  ++ u "Studies show [Source 2] that..."
  ++ quote
  ++ u "
- When using general knowledge (not from sources), do not cite a source number
- Be direct, factual, and persuasive
- CRITICAL: Your response MUST be between 100-150 words. Count your words carefully.

Retrieved Context (all "
  ++ show (length matches)
  ++ u " sources):
"
  ++ context matches
  ++ u "

Debate Topic: "
  ++ category req
  ++ u "
User Experience Level: "
  ++ debate_experience req
  ++ u "
AI Difficulty: "
  ++ ai_level req.

Definition userPrompt (req : StartDebateRequest) : jsstring :=
  u "User's opening argument: "
  ++ quote
  ++ opening_argument req
  ++ quote
  ++ u "

Provide a counterargument addressing their key points in 100-150 words. Cite sources inline when using them.".

Definition prompt (matches : list match_t) (req : StartDebateRequest) : jsstring :=
  systemPrompt matches req ++ u "

" ++ userPrompt req.

(** [session_id || crypto.randomUUID()] *)
Definition currentSessionId (W : World) (req : StartDebateRequest) : jsstring :=
  or_else (session_id req) (randomUUID W).

Definition user_upsert (W : World) (req : StartDebateRequest) (embedding : vector) : upsert :=
  {| up_id := turn_id (currentSessionId W req) turnIndex;
     up_values := embedding;
     up_role := u "user";
     up_text := opening_argument req;
     up_turn_index := turnIndex;
     up_timestamp := toISOString W 0;
     up_extra := Some (category req, debate_experience req, ai_level req);
     up_namespace := currentSessionId W req |}.

Definition ai_upsert (W : World) (req : StartDebateRequest) (answer : jsstring)
    (aiEmbedding : vector) : upsert :=
  {| up_id := turn_id (currentSessionId W req) (turnIndex + 1);
     up_values := aiEmbedding;
     up_role := u "assistant";
     up_text := answer;
     up_turn_index := turnIndex + 1;
     up_timestamp := toISOString W 1;
     up_extra := None;
     up_namespace := currentSessionId W req |}.

(** The handler: the reply, or the error of the 500, with the requests
    sent. An awaited upsert that rejects throws; its status is not read. *)
Definition serve (W : World) (req : StartDebateRequest) : (error + started) * list call :=
  if missing (GEMINI_API_KEY W) || missing (PINECONE_API_KEY W) then
    (inl MissingKeys, [])
  else
    let sent := [Embed (opening_argument req)] in
    match embedContent W (opening_argument req) with
    | Throws => (inl Thrown, sent)
    | Resp false errorText _ => (inl (EmbeddingFailed errorText), sent)
    | Resp true _ None => (inl Thrown, sent)
    | Resp true _ (Some embedding) =>
        let sent := sent ++ [Query (corpus_query embedding)] in
        match pinecone_query W (corpus_query embedding) with
        | Throws => (inl Thrown, sent)
        | Resp false errorText _ => (inl (PineconeQueryFailed (Some errorText)), sent)
        | Resp true _ None => (inl Thrown, sent)
        | Resp true _ (Some pineconeData) =>
            let matches := default [] pineconeData in
            let text := prompt matches req in
            let sent := sent ++ [Generate text] in
            match generateContent W text with
            | Throws => (inl Thrown, sent)
            | Resp false errorText _ => (inl (LLMFailed errorText), sent)
            | Resp true _ None => (inl Thrown, sent)
            | Resp true _ (Some llmData) =>
                match chunk_text llmData with
                | None => (inl InvalidModelResponse, sent)
                | Some answer =>
                    if negb (truthy answer) then (inl InvalidModelResponse, sent)
                    else
                      let first := user_upsert W req embedding in
                      let sent := sent ++ [Upsert first] in
                      if negb (vectors_upsert W first) then (inl Thrown, sent)
                      else
                        let sent := sent ++ [Embed answer] in
                        match embedContent W answer with
                        | Resp _ _ (Some aiEmbedding) =>
                            let second := ai_upsert W req answer aiEmbedding in
                            let sent := sent ++ [Upsert second] in
                            if negb (vectors_upsert W second) then (inl Thrown, sent)
                            else
                              (inr {| answer := answer;
                                      retrieved := imap to_source matches;
                                      r_session_id := currentSessionId W req;
                                      r_turn_index := turnIndex + 1 |}, sent)
                        | _ => (inl Thrown, sent)
                        end
                end
            end
        end
    end.

End Start.

(** ** elevenlabs-stt

    The handler for a POST whose body is an object. *)

Module Stt.

(** An entry of the [words] of a transcription. *)
Record word := { w_type : jsstring; w_text : jsstring }.

(** The body the service answers with, as far as the handler reads it:
    [words] is [None] when the field is absent or not an array. *)
Record result := { words : option (list word); r_text : option jsstring }.

(** The form posted to the service. *)
Record form := {
  file : list N;
  file_type : jsstring;
  filename : jsstring;
  model_id : jsstring;
  tag_audio_events : jsstring;
  language_code : jsstring;
  diarize : jsstring;
}.

(** What awaiting the request gives: a rejection, or a response with its
    status and its decoded body, [None] when it is not JSON. *)
Inductive answered :=
| Rejects
| Answers (status : nat) (body : option result).

(** The environment, [atob] ([None] when it throws) and the service. *)
Record World := {
  ELEVENLABS_API_KEY : option jsstring;
  atob : jsstring -> option (list N);
  speech_to_text : form -> answered;
}.

(** The errors the handler throws, and [Thrown] for those of the runtime. *)
Inductive error :=
| NoAudio
| KeyNotConfigured
| ApiError (status : nat)
| Thrown.

(** [error.message] for the errors the handler throws itself. *)
Definition message (e : error) : option jsstring :=
  match e with
  | NoAudio => Some (u "No audio data provided")
  | KeyNotConfigured => Some (u "ELEVENLABS_API_KEY not configured")
  | ApiError status => Some (u "ElevenLabs API error: " ++ show status)
  | Thrown => None
  end.

(** [response.ok] *)
Definition ok (status : nat) : bool := (200 <=? status) && (status <=? 299).

Definition is_word (w : word) : bool := bool_decide (w_type w = u "word").

(** The text of the reply. *)
Definition transcribedText (r : result) : jsstring :=
  match words r with
  | Some ws => join (u " ") (w_text <$> List.filter is_word ws)
  | None =>
      match r_text r with
      | Some t => if truthy t then t else []
      | None => []
      end
  end.

Definition formData (binaryAudio : list N) : form :=
  {| file := binaryAudio; file_type := u "audio/webm"; filename := u "audio.webm";
     model_id := u "scribe_v1"; tag_audio_events := u "true";
     language_code := u "eng"; diarize := u "true" |}.

(** The reply (the text with status 200, or the error with status 500)
    and the forms posted to the service. *)
Definition serve (W : World) (audio : option jsstring) : (error + jsstring) * list form :=
  match audio with
  | None => (inl NoAudio, [])
  | Some audio =>
      if negb (truthy audio) then (inl NoAudio, [])
      else if Edge.missing (ELEVENLABS_API_KEY W) then (inl KeyNotConfigured, [])
      else
        match atob W audio with
        | None => (inl Thrown, [])
        | Some binaryAudio =>
            let posted := [formData binaryAudio] in
            match speech_to_text W (formData binaryAudio) with
            | Rejects => (inl Thrown, posted)
            | Answers status body =>
                if negb (ok status) then (inl (ApiError status), posted)
                else match body with
                     | None => (inl Thrown, posted)
                     | Some r => (inr (transcribedText r), posted)
                     end
            end
        end
  end.

End Stt.

(** ** The sources panel *)

Module SourcesPanel.

Definition toggleSource (sourceId : jsstring) (expandedSources : gset jsstring)
    : gset jsstring :=
  if decide (sourceId ∈ expandedSources) then expandedSources ∖ {[sourceId]}
  else expandedSources ∪ {[sourceId]}.

(** [expandedSources.has(source.id)] *)
Definition isExpanded (expandedSources : gset jsstring) (source : Page.Source) : bool :=
  bool_decide (Page.id source ∈ expandedSources).

(** The text [copyCitation] writes to the clipboard. *)
Definition citation (source : Page.Source) : jsstring :=
  u "[Source " ++ show (Page.source_number source) ++ u "]: " ++ Page.title source.

Definition totalSources (sourceGroups : list Page.SourceGroup) : nat :=
  foldl (fun sum group => sum + length (Page.sources group)) 0 sourceGroups.

End SourcesPanel.

(** ** debate-analyze

    The handler for a POST with a well-typed body, over the type [A] of
    the values other than [null] that [JSON.parse] makes of the model's
    text. *)

Module Analyze.

Import Edge.

Record AnalyzeRequest := {
  session_id : jsstring;
  transcript : list Continue.HistoryMessage;
  user_analysis : option jsstring;
}.

Inductive error :=
| MissingKey
| AnalysisFailed (errorText : jsstring)
| Thrown.

Definition transcript_line (msg : Continue.HistoryMessage) : jsstring :=
  (if bool_decide (Continue.h_role msg = u "user") then u "STUDENT" else u "AI Opponent")
  ++ u ": " ++ Continue.h_content msg.

Definition transcriptText (transcript : list Continue.HistoryMessage) : jsstring :=
  join (u "

") (transcript_line <$> transcript).

Definition systemPrompt : jsstring :=
  u "You are an expert debate coach analyzing a STUDENT's debate performance.

CRITICAL: You are ONLY analyzing the STUDENT's arguments (labeled "
  ++ quote
  ++ u "STUDENT"
  ++ quote
  ++ u " in the transcript).
IGNORE the AI Opponent's performance - they are just providing context for what the student was responding to.

Your task is to provide a comprehensive performance breakdown of the STUDENT with:
1. Scores (1-10) for six dimensions of the STUDENT's performance
2. Top strengths (2-3 items) shown by the STUDENT
3. Critical issues to address (2-3 items) in the STUDENT's arguments
4. Actionable next steps (3-4 items) for the STUDENT to improve

You MUST respond with valid JSON in this exact format:
{
  "
  ++ quote
  ++ u "scores"
  ++ quote
  ++ u ": {
    "
  ++ quote
  ++ u "consistency"
  ++ quote
  ++ u ": <1-10>,
    "
  ++ quote
  ++ u "depth"
  ++ quote
  ++ u ": <1-10>,
    "
  ++ quote
  ++ u "evidence"
  ++ quote
  ++ u ": <1-10>,
    "
  ++ quote
  ++ u "conciseness"
  ++ quote
  ++ u ": <1-10>,
    "
  ++ quote
  ++ u "arguability"
  ++ quote
  ++ u ": <1-10>,
    "
  ++ quote
  ++ u "factuality"
  ++ quote
  ++ u ": <1-10>
  },
  "
  ++ quote
  ++ u "strengths"
  ++ quote
  ++ u ": ["
  ++ quote
  ++ u "strength 1"
  ++ quote
  ++ u ", "
  ++ quote
  ++ u "strength 2"
  ++ quote
  ++ u ", ...],
  "
  ++ quote
  ++ u "critical_issues"
  ++ quote
  ++ u ": ["
  ++ quote
  ++ u "issue 1"
  ++ quote
  ++ u ", "
  ++ quote
  ++ u "issue 2"
  ++ quote
  ++ u ", ...],
  "
  ++ quote
  ++ u "actionable_steps"
  ++ quote
  ++ u ": ["
  ++ quote
  ++ u "step 1"
  ++ quote
  ++ u ", "
  ++ quote
  ++ u "step 2"
  ++ quote
  ++ u ", ...],
  "
  ++ quote
  ++ u "summary"
  ++ quote
  ++ u ": "
  ++ quote
  ++ u "2-3 sentence overall assessment"
  ++ quote
  ++ u "
}

Score definitions (evaluate ONLY the STUDENT's performance):
- Consistency: Logical flow and coherence across the STUDENT's arguments
- Depth: Nuance, complexity, and thoroughness of the STUDENT's reasoning
- Evidence: Quality and relevance of supporting evidence in the STUDENT's arguments
- Conciseness: Clarity and brevity of the STUDENT's points without sacrificing substance
- Arguability: Persuasiveness and rhetorical effectiveness of the STUDENT
- Factuality: Accuracy and grounding in verifiable facts in the STUDENT's claims

Be constructive but honest. Identify real weaknesses in the STUDENT's performance and provide specific, actionable feedback for the STUDENT to improve.".

(** The line of the self-assessment, empty when there is none. *)
Definition self_assessment (user_analysis : option jsstring) : jsstring :=
  match user_analysis with
  | Some a => if truthy a then u "Student's self-assessment: " ++ a else []
  | None => []
  end.

Definition userPrompt (req : AnalyzeRequest) : jsstring :=
  u "Debate Transcript:
"
  ++ transcriptText (transcript req)
  ++ u "

"
  ++ self_assessment (user_analysis req)
  ++ u "

Analyze this debate performance and return the JSON analysis.".

Definition prompt (req : AnalyzeRequest) : jsstring :=
  systemPrompt ++ u "

" ++ userPrompt req.

Section Serve.

Variable A : Type.

(** [JSON.parse]: [None] when it throws, [Some None] when it gives
    [null]. *)
Variable JSON_parse : jsstring -> option (option A).

(** The reply (the analysis with status 200, or the error with status
    500) and the requests sent. Before it replies the handler reads
    [analysis.scores] for its log, which throws on [null]. *)
Definition serve (W : World) (req : AnalyzeRequest) : (error + A) * list call :=
  if missing (GEMINI_API_KEY W) then (inl MissingKey, [])
  else
    let sent := [Generate (prompt req)] in
    match generateContent W (prompt req) with
    | Throws => (inl Thrown, sent)
    | Resp false errorText _ => (inl (AnalysisFailed errorText), sent)
    | Resp true _ None => (inl Thrown, sent)
    | Resp true _ (Some llmData) =>
        match chunk_text llmData with
        | None => (inl Thrown, sent)
        | Some text =>
            match JSON_parse text with
            | None => (inl Thrown, sent)
            | Some None => (inl Thrown, sent)
            | Some (Some analysis) => (inr analysis, sent)
            end
        end
    end.

End Serve.

End Analyze.

(** ** Navigation between the pages

    [location.state]: the keys the pages write and read, each absent or
    present. *)

Module Nav.

Record state := {
  session_id : option jsstring;
  category : option jsstring;
  debate_experience : option jsstring;
  ai_level : option jsstring;
  conversation : option (list Page.slot);
  source_groups : option (list Page.SourceGroup);
  turn_index : option nat;
  transcript : option (list Page.slot);
  sources : option (list Page.Source);
}.

(** [x || ""] for an optional string. *)
Definition text_or_empty (x : option jsstring) : jsstring := default [] x.

(** The initial state of the debate page. *)
Definition debate_page (s : option state) : Page.page :=
  {| Page.conversation := default [] (s ≫= conversation);
     Page.sourceGroups := default [] (s ≫= source_groups);
     Page.sessionId := text_or_empty (s ≫= session_id);
     Page.topic := text_or_empty (s ≫= category);
     Page.debateExperience := text_or_empty (s ≫= debate_experience);
     Page.aiLevel := text_or_empty (s ≫= ai_level);
     Page.turnIndex := Page.initial_turnIndex (s ≫= turn_index);
     Page.userInput := [];
     Page.isLoading := false |}.

(** [handleEndDebate]: the state handed to the results page. *)
Definition handleEndDebate (st : Page.page) : state :=
  {| session_id := Some (Page.sessionId st);
     category := Some (Page.topic st);
     debate_experience := None;
     ai_level := None;
     conversation := None;
     source_groups := Some (Page.sourceGroups st);
     turn_index := None;
     transcript := Some (Page.conversation st);
     sources := None |}.

End Nav.

(** ** The setup page *)

Module Setup.

Definition EXPERIENCE_LABELS : list jsstring :=
  [u "Beginner"; u "Intermediate"; u "Advanced"; u "Expert"].

Definition AI_LEVEL_LABELS : list jsstring :=
  [u "Casual"; u "Moderate"; u "Competitive"; u "Expert"].

(** The state of the page; a slider holds one value. *)
Record setup := {
  selectedCategory : jsstring;
  userExperience : nat;
  aiLevel : nat;
  openingArgument : jsstring;
  isLoading : bool;
}.

(** The body of the POST to debate-start; a label is absent when the
    slider's value has none. *)
Record request := {
  category : jsstring;
  debate_experience : option jsstring;
  ai_level : option jsstring;
  opening_argument : jsstring;
}.

(** What [fetch] gives: a rejection, a response that is not ok with the
    [error] of its body, or a response that is ok with its body, [None]
    when it is not JSON. *)
Inductive response :=
| Rejected
| NotOk (error : option jsstring)
| Ok (data : option Start.started).

Inductive notice :=
| SelectCategory
| OpeningRequired
| StartFailed (message : option jsstring).

(** What a call leaves behind: the request sent, the notice shown and the
    state navigated to, each if any. *)
Record outcome := {
  sent : option request;
  shown : option notice;
  navigated : option Nav.state;
}.

Definition handleStartDebate (fetch : request -> response) (st : setup) : outcome :=
  if negb (truthy (selectedCategory st)) then
    {| sent := None; shown := Some SelectCategory; navigated := None |}
  else if length (trim (openingArgument st)) <? 20 then
    {| sent := None; shown := Some OpeningRequired; navigated := None |}
  else
    let body := {| category := selectedCategory st;
                   debate_experience := EXPERIENCE_LABELS !! userExperience st;
                   ai_level := AI_LEVEL_LABELS !! aiLevel st;
                   opening_argument := openingArgument st |} in
    match fetch body with
    | Rejected => {| sent := Some body; shown := Some (StartFailed None); navigated := None |}
    | NotOk error =>
        {| sent := Some body;
           shown := Some (StartFailed
                            (Some (Edge.or_else error (u "Failed to start debate"))));
           navigated := None |}
    | Ok None => {| sent := Some body; shown := Some (StartFailed None); navigated := None |}
    | Ok (Some data) =>
        {| sent := Some body; shown := None;
           navigated :=
             Some {| Nav.session_id := Some (Start.r_session_id data);
                     Nav.category := Some (selectedCategory st);
                     Nav.debate_experience := EXPERIENCE_LABELS !! userExperience st;
                     Nav.ai_level := AI_LEVEL_LABELS !! aiLevel st;
                     Nav.conversation :=
                       Some [Some {| Page.msg_role := Page.user;
                                     Page.content := openingArgument st |};
                             Some {| Page.msg_role := Page.assistant;
                                     Page.content := Start.answer data |}];
                     Nav.source_groups :=
                       Some [{| Page.sg_turnIndex := Start.r_turn_index data;
                                Page.sources := Start.retrieved data |}];
                     Nav.turn_index := Some (Start.r_turn_index data);
                     Nav.transcript := None;
                     Nav.sources := None |} |}
    end.

(** The request as debate-start reads it, when both labels are there. *)
Definition received (body : request) : option Start.StartDebateRequest :=
  e ← debate_experience body; a ← ai_level body;
  Some {| Start.category := category body; Start.debate_experience := e;
          Start.ai_level := a; Start.opening_argument := opening_argument body;
          Start.session_id := None |}.

(** The response to a reply of debate-start; [thrown] is the message of
    an error of the runtime. *)
Definition delivered (thrown : jsstring) (reply : Edge.error + Start.started) : response :=
  match reply with
  | inr data => Ok (Some data)
  | inl Edge.MissingKeys => NotOk (Some (u "Missing required API keys"))
  | inl (Edge.EmbeddingFailed errorText) => NotOk (Some (u "Embedding failed: " ++ errorText))
  | inl (Edge.PineconeQueryFailed (Some errorText)) =>
      NotOk (Some (u "Pinecone query failed: " ++ errorText))
  | inl (Edge.PineconeQueryFailed None) => NotOk (Some (u "Pinecone query failed"))
  | inl (Edge.LLMFailed errorText) => NotOk (Some (u "LLM generation failed: " ++ errorText))
  | inl Edge.InvalidModelResponse => NotOk (Some (u "Invalid response from AI model"))
  | inl Edge.Thrown => NotOk (Some thrown)
  end.

End Setup.

(** ** The results page *)

Module Results.

Inductive level := low | medium | high.

Definition getScoreLevel (score : Q) : level :=
  if Qle_bool 8 score then high
  else if Qle_bool 6 score then medium
  else low.

Record AnalysisScores := {
  consistency : Q;
  depth : Q;
  evidence : Q;
  conciseness : Q;
  arguability : Q;
  factuality : Q;
}.

Record Analysis := {
  scores : AnalysisScores;
  strengths : list jsstring;
  critical_issues : list jsstring;
  actionable_steps : list jsstring;
  summary : jsstring;
}.

Record results := {
  sessionId : jsstring;
  transcript : list Page.slot;
  topic : jsstring;
  sources : list Page.Source;
  userAnalysis : jsstring;
  analysis : option Analysis;
  isLoading : bool;
  hasAnalyzed : bool;
}.

(** The initial state of the page. *)
Definition results_page (s : option Nav.state) : results :=
  {| sessionId := Nav.text_or_empty (s ≫= Nav.session_id);
     transcript := default [] (s ≫= Nav.transcript);
     topic := Nav.text_or_empty (s ≫= Nav.category);
     sources := default [] (s ≫= Nav.sources);
     userAnalysis := [];
     analysis := None;
     isLoading := false;
     hasAnalyzed := false |}.

(** The first effect of the page: back to the setup page when there is no
    session or no transcript. *)
Definition redirects (st : results) : bool :=
  negb (truthy (sessionId st)) || bool_decide (length (transcript st) = 0).

Section Save.

(** [new Date().toLocaleString()] and how a number is written in a
    template literal. *)
Variable now : jsstring.
Variable Number_toString : Q -> jsstring.

Definition header (st : results) : jsstring :=
  u "DEBATE TRANSCRIPT
"
  ++ u "=================

"
  ++ u "Session ID: " ++ sessionId st ++ u "
"
  ++ u "Category: " ++ topic st ++ u "
"
  ++ u "Date: " ++ now ++ u "
"
  ++ u "Total Turns: " ++ show (length (transcript st)) ++ u "

"
  ++ u "CONVERSATION
"
  ++ u "============

".

(** One pass of [transcript.forEach]; a hole is skipped. *)
Definition turn_text (idx : nat) (msg : Page.slot) : jsstring :=
  match msg with
  | Some msg =>
      (match Page.msg_role msg with Page.user => u "You" | Page.assistant => u "AI" end)
      ++ u " (Turn " ++ show (idx + 1) ++ u "):
"
      ++ Page.content msg ++ u "

"
  | None => []
  end.

Definition source_text (idx : nat) (source : Page.Source) : jsstring :=
  u "[Source " ++ show (idx + 1) ++ u "] " ++ Page.title source ++ u "
"
  ++ Page.summary source ++ u "
"
  ++ match Page.url source with
     | Some url => if truthy url then u "URL: " ++ url ++ u "
" else []
     | None => []
     end
  ++ match Page.page_no source with
     | Some 0%N | None => []
     | Some page => u "Page: " ++ u (pretty page) ++ u "
"
     end
  ++ match Page.date source with
     | Some date => if truthy date then u "Date: " ++ date ++ u "
" else []
     | None => []
     end
  ++ u "
".

Definition sources_text (sources : list Page.Source) : jsstring :=
  match sources with
  | [] => []
  | _ => u "
SOURCES USED
" ++ u "============

" ++ mjoin (imap source_text sources)
  end.

Definition bullet (s : jsstring) : jsstring := u "- " ++ s ++ u "
".

Definition analysis_text (analysis : option Analysis) : jsstring :=
  match analysis with
  | None => []
  | Some a =>
      u "
PERFORMANCE ANALYSIS
"
      ++ u "===================

"
      ++ u "Overall Assessment:
" ++ summary a ++ u "

"
      ++ u "Scores:
"
      ++ u "- Consistency: " ++ Number_toString (consistency (scores a)) ++ u "/10
"
      ++ u "- Depth: " ++ Number_toString (depth (scores a)) ++ u "/10
"
      ++ u "- Evidence: " ++ Number_toString (evidence (scores a)) ++ u "/10
"
      ++ u "- Conciseness: " ++ Number_toString (conciseness (scores a)) ++ u "/10
"
      ++ u "- Arguability: " ++ Number_toString (arguability (scores a)) ++ u "/10
"
      ++ u "- Factuality: " ++ Number_toString (factuality (scores a)) ++ u "/10

"
      ++ u "Strengths:
"
      ++ mjoin (bullet <$> strengths a)
      ++ u "
Areas to Address:
"
      ++ mjoin (bullet <$> critical_issues a)
      ++ u "
Next Steps:
"
      ++ mjoin (bullet <$> actionable_steps a)
  end.

(** The text [handleSaveTranscript] puts in the file. *)
Definition content (st : results) : jsstring :=
  header st
  ++ mjoin (imap turn_text (transcript st))
  ++ sources_text (sources st)
  ++ analysis_text (analysis st).

End Save.

End Results.

(** ** Vocabulary of the statements *)

Module Segmenter.

Import Page.

(** An event of the answer stream that carries [ft] as its [fullText]. *)
Definition update (ft : jsstring) : payload :=
  {| p_done := false; p_fullText := Some ft; p_retrieved := []; p_turn_index := 0 |}.

Definition start_reading (c : list slot) : reading :=
  {| fullText := []; sentenceBuffer := []; metadata := None; shown := c; spoken := [] |}.

(** The read loop over the events of one answer, given by their [fullText]. *)
Definition feed (aiMessageIndex : nat) (r : reading) (updates : list jsstring) : reading :=
  foldl (fun r ft => on_parsed aiMessageIndex r (update ft)) r updates.

(** The texts handed to [playTTS] during one answer, the flush included. *)
Definition sentences (aiMessageIndex : nat) (c : list slot) (updates : list jsstring)
    : list jsstring :=
  flush (feed aiMessageIndex (start_reading c) updates).

(** Each update extends the one before it, the first one extends [prev]. *)
Fixpoint incremental (prev : jsstring) (updates : list jsstring) : bool :=
  match updates with
  | [] => true
  | ft :: rest => startsWith prev ft && incremental ft rest
  end.

(** The text of the answer: the last update. *)
Definition final (updates : list jsstring) : jsstring := List.last updates [].

(** A text without its white space. *)
Definition strip (s : jsstring) : jsstring := filter (fun c => is_space c = false) s.

(** The sentences spoken out of a list of pieces: each trimmed, the empty
    ones left out. *)
Definition spoken_of (pieces : list jsstring) : list jsstring :=
  filter (fun s => truthy s = true) (trim <$> pieces).

(** What the read loop keeps true: the pieces cut off so far, followed by
    the buffer, are the text received so far. *)
Definition cut_into (pieces : list jsstring) (r : reading) : Prop :=
  mjoin pieces ++ sentenceBuffer r = fullText r /\ spoken r = spoken_of pieces.

(** The sentences of scenario B, as two updates. *)
Definition scenario_B : list jsstring :=
  [u "The claim is false.";
   u "The claim is false. Evidence [Source 1] shows otherwise."].

End Segmenter.


Module Playback.

Import Player.

(** The two sentences of scenario B are handed to [playTTS]; the request
    for the second returns first, then the first, and both clips play to
    their end. *)
Definition later_returns_first : list event :=
  [Requests 0; Requests 1; Returns 1 Synthesized; Returns 0 Synthesized; Ended; Ended].

(** Two texts are handed to [playTTS]; the first clip is playing and the
    request for the second is still in flight when the user stops the
    audio; the request then returns. *)
Definition before_stop : list event := [Requests 0; Requests 1; Returns 0 Synthesized].

Definition stop_with_request_in_flight : list event :=
  before_stop ++ [Stop; Returns 1 Synthesized].

Definition no_stop (tr : list event) : bool := forallb (fun e => negb (is_stop e)) tr.

End Playback.

Module Turn.

Import Edge Continue.

(** The vectors of the namespace [ns], by identifier, once the upserts
    among [calls] have taken effect in order: an upsert replaces what is
    stored under its identifier. *)
Definition namespace_after (ns : jsstring) (calls : list call)
    (stored : gmap jsstring upsert) : gmap jsstring upsert :=
  foldl (fun m c => match c with
                    | Upsert v => if bool_decide (up_namespace v = ns)
                                  then <[up_id v := v]> m else m
                    | _ => m
                    end) stored calls.

(** A request answered with status ok and a body the handler can read. *)
Definition succeeded {A} (r : fetched A) : bool :=
  match r with
  | Resp true _ (Some _) => true
  | _ => false
  end.

Definition found {E A} (r : E + A) : bool :=
  match r with
  | inr _ => true
  | inl _ => false
  end.

Definition events_of (res : http) : list sse :=
  match res with
  | EventStream events _ => events
  | Status500 _ => []
  end.

Definition is_error (res : http) : bool :=
  match res with
  | Status500 _ => true
  | EventStream _ _ => false
  end.

(** Each incremental event carries the text of the one before it with its
    own delta appended, so the delta is the part of [fullText] past the
    previous length; the terminal event carries the text reached. *)
Fixpoint chained (prev : jsstring) (events : list sse) : Prop :=
  match events with
  | [] => True
  | Delta text fullText :: rest =>
      fullText = prev ++ text /\ drop (length prev) fullText = text /\ chained fullText rest
  | Done fullText _ _ :: rest => fullText = prev /\ chained fullText rest
  end.

(** The [fullText] of the incremental events, in order. *)
Definition fullTexts (events : list sse) : list jsstring :=
  omap (fun e => match e with Delta _ ft => Some ft | Done _ _ _ => None end) events.

(** The text reached after a run of events that started from [prev]. *)
Definition reach (prev : jsstring) (events : list sse) : jsstring :=
  foldl (fun acc e => match e with Delta _ ft => ft | Done ft _ _ => ft end) prev events.

(** What forwarding keeps true. *)
Definition forwarded (f : forwarding) : Prop :=
  chained [] (enqueued f) /\ reach [] (enqueued f) = fullAnswer f.


(** Both keys are set. *)
Definition configured (W : World) : bool :=
  negb (missing (GEMINI_API_KEY W) || missing (PINECONE_API_KEY W)).

(** The three stages before the answer stream exists. *)
Definition embedding_ok (W : World) (req : ContinueDebateRequest) : bool :=
  succeeded (embedContent W (user_reply req)).

Definition retrieval_ok (W : World) (req : ContinueDebateRequest) : bool :=
  match embedContent W (user_reply req) with
  | Resp true _ (Some embedding) => found (retrieve W embedding (session_id req))
  | _ => false
  end.


(** The generation stream opens and is read to its end. *)
Definition generation_ok (W : World) (req : ContinueDebateRequest) : bool :=
  match embedContent W (user_reply req) with
  | Resp true _ (Some embedding) =>
      match retrieve W embedding (session_id req) with
      | inr (corpusMatches, sessionMatches) =>
          match streamGenerateContent W (prompt corpusMatches sessionMatches req) with
          | Resp true _ (Some (_, Page.ReadFails)) => false
          | Resp true _ _ => true
          | _ => false
          end
      | inl _ => false
      end
  | _ => false
  end.




(** The payloads the page reads out of a run of lines. *)
Definition decoded (JSON_parse : jsstring -> option Page.payload)
    (lines : list jsstring) : list Page.payload :=
  omap (fun line => if startsWith (u "data: ") line
                    then JSON_parse (trim (drop 6 line)) else None) lines.


(** The conversation [c] of before the turn, followed by the user's
    message and the assistant's message. *)
Definition keeps_history (c : list Page.slot) (r : Page.reading) : Prop :=
  exists a b, Page.shown r = c ++ [a; b].

(** A response that makes the [try] block throw. *)
Definition fails (resp : Page.response) : bool :=
  match resp with
  | Page.Response true (Some (_, Page.Eof)) => false
  | _ => true
  end.

(** The page accepts a message: the input is not blank and no turn is running. *)
Definition sendable (st : Page.page) : bool :=
  truthy (trim (Page.userInput st)) && negb (Page.isLoading st).

End Turn.

(** A small world for running the handlers: two corpus entries, an
    embedding service that always answers, a model that streams two
    sentences with an unreadable line between them, and a decoder that
    accepts payloads of the form [{text]. *)
Module Scenario.

Import Edge.

Definition entry (name summary : string) : match_t :=
  {| m_id := u name; m_score := 9 # 10;
     m_metadata := Some {| md_summary := Some (u summary); md_title := None;
                           md_text := None; md_page := None; md_date := None;
                           md_url := None |} |}.

Definition corpus : list match_t :=
  [entry "doc-1" "Coverage lowers mortality."; entry "doc-2" "Costs rise with age."].

Definition decode (data : jsstring) : option chunk :=
  match data with
  | 123%N :: text =>
      Some {| candidates := Some [{| content := Some {| parts := Some [{| text := Some text |}] |} |}] |}
  | _ => None
  end.

Definition upstream : list jsstring :=
  [u "data: {The claim is false.
data: oops

";
   u "data: { Evidence [Source 1] shows otherwise.
"].

Definition world : World :=
  {| GEMINI_API_KEY := Some (u "g");
     PINECONE_API_KEY := Some (u "p");
     embedContent := fun text => Resp true [] (Some [Z.of_nat (length text) # 1]);
     pinecone_query := fun q =>
       Resp true [] (Some (Some (if bool_decide (namespace q = []) then corpus else [])));
     streamGenerateContent := fun _ => Resp true [] (Some (upstream, Page.Eof));
     generateContent := fun _ => Resp true [] (decode (u "{I disagree."));
     vectors_upsert := fun _ => true;
     JSON_parse := decode;
     toISOString := fun k => u "2024-01-15T10:30:0" ++ show k ++ u "Z";
     randomUUID := u "s1" |}.

(** The same world with a session index that cannot be reached. *)
Definition world_without_session : World :=
  {| GEMINI_API_KEY := GEMINI_API_KEY world;
     PINECONE_API_KEY := PINECONE_API_KEY world;
     embedContent := embedContent world;
     pinecone_query := fun q =>
       if bool_decide (namespace q = []) then pinecone_query world q
       else Resp false (u "unavailable") None;
     streamGenerateContent := streamGenerateContent world;
     generateContent := generateContent world;
     vectors_upsert := vectors_upsert world;
     JSON_parse := JSON_parse world;
     toISOString := toISOString world;
     randomUUID := randomUUID world |}.

Definition opening : Start.StartDebateRequest :=
  {| Start.category := u "politics"; Start.debate_experience := u "Intermediate";
     Start.ai_level := u "Competitive";
     Start.opening_argument := u "Universal healthcare is necessary for a just society.";
     Start.session_id := None |}.

(** The reply of debate-start to [opening]. *)
Definition opened : Start.started :=
  {| Start.answer := u "I disagree.";
     Start.retrieved := imap to_source corpus;
     Start.r_session_id := u "s1";
     Start.r_turn_index := 1 |}.

(** The request the page sends for the first reply after [opening]. *)
Definition reply : Continue.ContinueDebateRequest :=
  {| Continue.session_id := u "s1"; Continue.user_reply := u "Costs are manageable.";
     Continue.turn_index := 1; Continue.category := u "politics";
     Continue.debate_experience := u "Intermediate"; Continue.ai_level := u "Competitive";
     Continue.conversation_history :=
       [{| Continue.h_role := u "user";
           Continue.h_content := u "Universal healthcare is necessary for a just society." |};
        {| Continue.h_role := u "assistant"; Continue.h_content := u "I disagree." |}] |}.

(** The page after the opening exchange, with the reply typed in. *)
Definition page_before : Page.page :=
  {| Page.conversation :=
       [Some {| Page.msg_role := Page.user;
                Page.content := u "Universal healthcare is necessary for a just society." |};
        Some {| Page.msg_role := Page.assistant; Page.content := u "I disagree." |}];
     Page.sourceGroups := [];
     Page.sessionId := u "s1"; Page.topic := u "politics";
     Page.debateExperience := u "Intermediate"; Page.aiLevel := u "Competitive";
     Page.turnIndex := Page.initial_turnIndex (Some 1);
     Page.userInput := u "Costs are manageable."; Page.isLoading := false |}.

(** The same world with a generation stream that breaks off. *)
Definition world_with_broken_stream : World :=
  {| GEMINI_API_KEY := GEMINI_API_KEY world;
     PINECONE_API_KEY := PINECONE_API_KEY world;
     embedContent := embedContent world;
     pinecone_query := pinecone_query world;
     streamGenerateContent := fun _ => Resp true [] (Some (upstream, Page.ReadFails));
     generateContent := generateContent world;
     vectors_upsert := vectors_upsert world;
     JSON_parse := JSON_parse world;
     toISOString := toISOString world;
     randomUUID := randomUUID world |}.

(** A wire format for the page's side of the examples: an incremental
    event is written as [{] followed by its [fullText], the terminal
    event as [!] followed by nothing, one event per chunk. *)
Definition page_decode (data : jsstring) : option Page.payload :=
  match data with
  | 123%N :: ft =>
      Some {| Page.p_done := false; Page.p_fullText := Some ft;
              Page.p_retrieved := []; Page.p_turn_index := 0 |}
  | 33%N :: _ =>
      Some {| Page.p_done := true; Page.p_fullText := None;
              Page.p_retrieved := []; Page.p_turn_index := 2 |}
  | _ => None
  end.

Definition one_chunk_per_event (events : list Continue.sse) : list jsstring :=
  (fun e => match e with
            | Continue.Delta _ ft => u "data: {" ++ ft ++ u "

"
            | Continue.Done _ _ _ => u "data: !

"
            end) <$> events.

Definition error_text (e : error) : jsstring := u "{error}".

(** The first reply, end to end: the page sends, the function answers in
    [world], the page reads the answer. *)
Definition first_reply : Page.outcome :=
  Page.handleSendMessage page_decode
    (fun _ => Continue.deliver one_chunk_per_event error_text
                (Continue.serve world reply).1)
    page_before.

End Scenario.

Module Reading.

Import Page.

(** The texts the read loop takes over from a run of payloads: the
    [fullText] of those that are not terminal and carry a non-empty one. *)
Definition received (ps : list payload) : list jsstring :=
  omap (fun p => if p_done p then None
                 else match p_fullText p with
                      | Some ft => if truthy ft then Some ft else None
                      | None => None
                      end) ps.

(** The assistant's message shows the text received so far, after the
    conversation [c] and the user's message [m]. *)
Definition shows_text (c : list slot) (m : slot) (r : reading) : Prop :=
  shown r = c ++ [m; Some {| msg_role := assistant; content := fullText r |}].

(** A text as [playTTS] should get it: not empty, nothing to trim. *)
Definition speakable (s : jsstring) : Prop := s <> [] /\ trim s = s.

(** A text that ends in a terminal mark. *)
Definition ends_sentence (s : jsstring) : Prop :=
  exists c, last s = Some c /\ is_terminal c = true.

End Reading.

Module Handlers.

Import Edge.

(** An answer whose body the handler can read, whatever its status. *)
Definition readable {A} (r : fetched A) : bool :=
  match r with
  | Resp _ _ (Some _) => true
  | _ => false
  end.

(** The vectors among the requests sent, in order. *)
Definition upserts_of (calls : list call) : list upsert :=
  omap (fun c => match c with Upsert v => Some v | _ => None end) calls.

(** The texts of the incremental events, in order. *)
Definition delta_texts (events : list Continue.sse) : list jsstring :=
  omap (fun e => match e with
                 | Continue.Delta text _ => Some text
                 | Continue.Done _ _ _ => None
                 end) events.

(** The line of the corpus context that belongs to a source as the page
    receives it. *)
Definition cite (s : Page.Source) : jsstring :=
  u "[Source " ++ show (Page.source_number s) ++ u "]: " ++ Page.summary s.

(** The world of the scenario with an embedding service that answers for
    the user's reply only. *)
Definition world_failing_answer_embedding : World :=
  {| GEMINI_API_KEY := GEMINI_API_KEY Scenario.world;
     PINECONE_API_KEY := PINECONE_API_KEY Scenario.world;
     embedContent := fun text =>
       if bool_decide (text = Continue.user_reply Scenario.reply)
       then embedContent Scenario.world text
       else Resp false (u "quota") None;
     pinecone_query := pinecone_query Scenario.world;
     streamGenerateContent := streamGenerateContent Scenario.world;
     generateContent := generateContent Scenario.world;
     vectors_upsert := vectors_upsert Scenario.world;
     JSON_parse := JSON_parse Scenario.world;
     toISOString := toISOString Scenario.world;
     randomUUID := randomUUID Scenario.world |}.

(** The world of the scenario without the key of the vector index. *)
Definition world_without_key : World :=
  {| GEMINI_API_KEY := GEMINI_API_KEY Scenario.world;
     PINECONE_API_KEY := Some [];
     embedContent := embedContent Scenario.world;
     pinecone_query := pinecone_query Scenario.world;
     streamGenerateContent := streamGenerateContent Scenario.world;
     generateContent := generateContent Scenario.world;
     vectors_upsert := vectors_upsert Scenario.world;
     JSON_parse := JSON_parse Scenario.world;
     toISOString := toISOString Scenario.world;
     randomUUID := randomUUID Scenario.world |}.

(** The world of the scenario with a model that answers with no text. *)
Definition world_with_mute_model : World :=
  {| GEMINI_API_KEY := GEMINI_API_KEY Scenario.world;
     PINECONE_API_KEY := PINECONE_API_KEY Scenario.world;
     embedContent := embedContent Scenario.world;
     pinecone_query := pinecone_query Scenario.world;
     streamGenerateContent := streamGenerateContent Scenario.world;
     generateContent := fun _ => Resp true [] (Some {| candidates := Some [] |});
     vectors_upsert := vectors_upsert Scenario.world;
     JSON_parse := JSON_parse Scenario.world;
     toISOString := toISOString Scenario.world;
     randomUUID := randomUUID Scenario.world |}.

End Handlers.

Module Speech.

Import Stt.

(** A service that hears two words with a spacing entry between them,
    and a decoder that takes the audio text as the bytes. *)
Definition heard : result :=
  {| words := Some [{| w_type := u "word"; w_text := u "Costs" |};
                    {| w_type := u "spacing"; w_text := u " " |};
                    {| w_type := u "word"; w_text := u "matter" |}];
     r_text := Some (u "Costs matter") |}.

Definition world : World :=
  {| ELEVENLABS_API_KEY := Some (u "k");
     atob := fun audio => Some audio;
     speech_to_text := fun _ => Answers 200 (Some heard) |}.

End Speech.

Module Pages.

(** The order of the levels of a score. *)
Definition rank (l : Results.level) : nat :=
  match l with
  | Results.low => 0
  | Results.medium => 1
  | Results.high => 2
  end.

(** The results page once [setAnalysis] has stored an analysis. *)
Definition analysed (st : Results.results) (a : option Results.Analysis) : Results.results :=
  {| Results.sessionId := Results.sessionId st;
     Results.transcript := Results.transcript st;
     Results.topic := Results.topic st;
     Results.sources := Results.sources st;
     Results.userAnalysis := Results.userAnalysis st;
     Results.analysis := a;
     Results.isLoading := false;
     Results.hasAnalyzed := true |}.

(** The setup page filled in as in the scenario. *)
Definition filled : Setup.setup :=
  {| Setup.selectedCategory := u "politics";
     Setup.userExperience := 1;
     Setup.aiLevel := 2;
     Setup.openingArgument := u "Universal healthcare is necessary for a just society.";
     Setup.isLoading := false |}.

(** The setup page with an opening argument that is too short. *)
Definition too_short : Setup.setup :=
  {| Setup.selectedCategory := u "politics";
     Setup.userExperience := 1;
     Setup.aiLevel := 2;
     Setup.openingArgument := u "   Healthcare is a right.   ";
     Setup.isLoading := false |}.

(** [fetch] answered by debate-start in [W], for requests with both labels. *)
Definition start_backend (W : Edge.World) (thrown : jsstring) (body : Setup.request)
    : Setup.response :=
  match Setup.received body with
  | Some req => Setup.delivered thrown (Start.serve W req).1
  | None => Setup.Rejected
  end.

(** A decoder of the page whose terminal event carries the two sources
    of the scenario, and an endpoint that answers one sentence and ends. *)
Definition decode_with_sources (data : jsstring) : option Page.payload :=
  match data with
  | 33%N :: _ =>
      Some {| Page.p_done := true; Page.p_fullText := None;
              Page.p_retrieved := imap Edge.to_source Scenario.corpus;
              Page.p_turn_index := 2 |}
  | _ => Scenario.page_decode data
  end.

Definition answers_once (req : Page.request) : Page.response :=
  Page.Response true (Some ([u "data: {Costs fall.

"; u "data: !

"], Page.Eof)).

(** The request for the analysis of the opening exchange. *)
Definition debated : Analyze.AnalyzeRequest :=
  {| Analyze.session_id := u "s1";
     Analyze.transcript := Continue.conversation_history Scenario.reply;
     Analyze.user_analysis := None |}.

End Pages.
(** ** Sentence segmentation (C1) *)

Module SegmenterFacts.

Import Page Segmenter.

Lemma startsWith_split (p s : jsstring) :
  startsWith p s = true -> s = p ++ drop (length p) s.
Proof.
  revert s; induction p as [|a p IH]; intros [|b s]; simpl; try done.
  intros [Hab Hps]%andb_true_iff. apply N.eqb_eq in Hab as ->.
  f_equal. by apply IH.
Qed.

Lemma strip_app (s t : jsstring) : strip (s ++ t) = strip s ++ strip t.
Proof. apply filter_app. Qed.

Lemma strip_trimStart (s : jsstring) : strip (trimStart s) = strip s.
Proof.
  induction s as [|c s IH]; simpl; [done|].
  destruct (is_space c) eqn:Hc; [|done].
  unfold strip at 2. rewrite filter_cons_False; [exact IH | congruence].
Qed.

Lemma strip_reverse (s : jsstring) : strip (reverse s) = reverse (strip s).
Proof. apply filter_reverse. Qed.

Lemma strip_trim (s : jsstring) : strip (trim s) = strip s.
Proof.
  unfold trim, trimEnd.
  by rewrite strip_reverse, strip_trimStart, <- strip_reverse, reverse_involutive,
    strip_trimStart.
Qed.

Lemma spoken_of_snoc (pieces : list jsstring) (p : jsstring) :
  spoken_of (pieces ++ [p]) =
  if truthy (trim p) then spoken_of pieces ++ [trim p] else spoken_of pieces.
Proof.
  unfold spoken_of. rewrite fmap_app, filter_app. simpl.
  destruct (truthy (trim p)) eqn:Hp.
  - by rewrite filter_cons_True, filter_nil.
  - rewrite filter_cons_False by congruence. by rewrite filter_nil, app_nil_r.
Qed.

Lemma strip_spoken_of (pieces : list jsstring) :
  strip (mjoin (spoken_of pieces)) = strip (mjoin pieces).
Proof.
  induction pieces as [|p ps IH] using rev_ind; [done|].
  rewrite spoken_of_snoc, !join_app, strip_app. simpl. rewrite app_nil_r.
  destruct (truthy (trim p)) eqn:Hp.
  - rewrite join_app, strip_app, IH. simpl. by rewrite app_nil_r, strip_trim.
  - rewrite IH, <- (strip_trim p).
    unfold truthy in Hp. apply negb_false_iff, bool_decide_eq_true in Hp.
    by rewrite Hp, app_nil_r.
Qed.

Lemma on_update_cut (idx : nat) (r : reading) (ft : jsstring) (pieces : list jsstring) :
  cut_into pieces r -> startsWith (fullText r) ft = true ->
  exists pieces', cut_into pieces' (on_parsed idx r (update ft))
                  /\ fullText (on_parsed idx r (update ft)) = ft.
Proof.
  intros [Hcat Hsp] Hpre. apply startsWith_split in Hpre.
  unfold on_parsed, update; simpl.
  destruct (truthy ft) eqn:Hft.
  - unfold on_fullText.
    destruct (sentence_match _) as [n|] eqn:Hm; simpl.
    + exists (pieces ++ [take n (sentenceBuffer r ++ drop (length (fullText r)) ft)]).
      split; [|done]. split; simpl.
      * rewrite join_app; simpl. rewrite app_nil_r, <- app_assoc, take_drop.
        by rewrite app_assoc, Hcat, <- Hpre.
      * rewrite spoken_of_snoc, <- Hsp. done.
    + exists pieces. split; [|done]. split; simpl; [|done].
      by rewrite app_assoc, Hcat, <- Hpre.
  - unfold truthy in Hft. apply negb_false_iff, bool_decide_eq_true in Hft. subst ft.
    exists pieces. split.
    + by split.
    + symmetry in Hpre. by apply app_eq_nil in Hpre as [-> _].
Qed.

Lemma last_cons_default {A} (x : A) (l : list A) (d d' : A) :
  List.last (x :: l) d = List.last (x :: l) d'.
Proof. revert x; induction l as [|y l IH]; intros x; [done|]. apply (IH y). Qed.

Lemma feed_cut (idx : nat) (updates : list jsstring) (r : reading) (pieces : list jsstring) :
  cut_into pieces r -> incremental (fullText r) updates = true ->
  exists pieces', cut_into pieces' (feed idx r updates)
                  /\ fullText (feed idx r updates) = List.last updates (fullText r).
Proof.
  revert r pieces; induction updates as [|ft us IH]; intros r pieces Hcut Hinc.
  - exists pieces. by split.
  - simpl in Hinc. apply andb_true_iff in Hinc as [Hpre Hinc].
    destruct (on_update_cut idx r ft pieces Hcut Hpre) as (pieces1 & Hcut1 & Hft1).
    destruct (IH (on_parsed idx r (update ft)) pieces1 Hcut1) as (pieces2 & Hcut2 & Hft2).
    { by rewrite Hft1. }
    exists pieces2. split; [exact Hcut2|].
    change (feed idx r (ft :: us)) with (feed idx (on_parsed idx r (update ft)) us).
    rewrite Hft2, Hft1. destruct us as [|x us]; [done|].
    exact (last_cons_default x us ft (fullText r)).
Qed.

(** C1, as the code has it: the sentences handed to synthesis are the
    trimmed, non-empty pieces of a cutting of the full answer text into
    consecutive pieces; so their concatenation is the answer text in
    order, without duplication, except for the white space trimmed at the
    ends of the pieces. *)
Theorem sentences_cover_text_up_to_trimming
    (idx : nat) (c : list slot) (updates : list jsstring) :
  incremental [] updates = true ->
  (exists pieces, mjoin pieces = final updates
                  /\ sentences idx c updates = spoken_of pieces)
  /\ strip (mjoin (sentences idx c updates)) = strip (final updates).
Proof.
  intros Hinc.
  destruct (feed_cut idx updates (start_reading c) [] (conj eq_refl eq_refl) Hinc)
    as (pieces & [Hcat Hsp] & Hft).
  assert (Hall : mjoin (pieces ++ [sentenceBuffer (feed idx (start_reading c) updates)])
                 = final updates
                 /\ sentences idx c updates
                    = spoken_of (pieces ++ [sentenceBuffer (feed idx (start_reading c) updates)])).
  { split.
    - rewrite join_app; simpl. by rewrite app_nil_r, Hcat, Hft.
    - unfold sentences, flush. by rewrite spoken_of_snoc, Hsp. }
  destruct Hall as [H1 H2]. split; [eauto|].
  by rewrite H2, strip_spoken_of, H1.
Qed.

Lemma sentences_cover_text_witness :
  incremental [] scenario_B = true
  /\ strip (mjoin (sentences 1 [] scenario_B)) = strip (final scenario_B).
Proof.
  split; [reflexivity|].
  apply (sentences_cover_text_up_to_trimming 1 [] scenario_B). reflexivity.
Defined.

(** C1 as stated fails on scenario B: the space between the two sentences
    is in the answer and in neither sentence. *)
Lemma sentences_drop_white_space :
  incremental [] scenario_B = true
  /\ sentences 1 [] scenario_B
     = [u "The claim is false."; u "Evidence [Source 1] shows otherwise."]
  /\ mjoin (sentences 1 [] scenario_B) <> final scenario_B.
Proof. split; [reflexivity|]. split; [reflexivity|]. vm_compute. discriminate. Qed.

End SegmenterFacts.

(** ** The playback queue (C2, C8) *)

Module PlaybackFacts.

Import Player Playback.

Lemma playNextInQueue_keeps_order (p : player) :
  started (playNextInQueue p) ++ audioQueue (playNextInQueue p)
  = started p ++ audioQueue p.
Proof.
  unfold playNextInQueue. destruct (audioQueue p) as [|k q]; simpl; [done|].
  by rewrite <- app_assoc.
Qed.

Lemma queueAudio_appends (k : clip) (p : player) :
  started (queueAudio k p) ++ audioQueue (queueAudio k p)
  = (started p ++ audioQueue p) ++ [k].
Proof.
  unfold queueAudio. destruct (isPlayingQueue p).
  - simpl. by rewrite app_assoc.
  - rewrite playNextInQueue_keeps_order. simpl. by rewrite app_assoc.
Qed.

Lemma run_keeps_completion_order (tr : list event) (p : player) :
  no_stop tr = true ->
  started (run p tr) ++ audioQueue (run p tr)
  = (started p ++ audioQueue p) ++ completions tr.
Proof.
  revert p; induction tr as [|e tr IH]; intros p Hns.
  - simpl. by rewrite app_nil_r.
  - simpl in Hns. apply andb_true_iff in Hns as [He Hns].
    change (run p (e :: tr)) with (run (step p e) tr).
    rewrite (IH _ Hns).
    destruct e as [k|k [| |]| | | |]; simpl; try done;
      rewrite ?playNextInQueue_keeps_order, ?queueAudio_appends, <- ?app_assoc; done.
Qed.

(** A clip enters the queue when its synthesis request returns: as long
    as the audio is not stopped the clips played, followed by those still
    queued, are the synthesized clips in the order their requests
    returned, whatever the order in which the texts were handed over. *)
Theorem playback_follows_completion_order (tr : list event) :
  no_stop tr = true ->
  started (run idle tr) ++ audioQueue (run idle tr) = completions tr.
Proof. intros Hns. by rewrite run_keeps_completion_order. Qed.

Lemma playback_follows_completion_order_witness :
  no_stop later_returns_first = true
  /\ started (run idle later_returns_first) ++ audioQueue (run idle later_returns_first)
     = completions later_returns_first.
Proof.
  split; [reflexivity|].
  apply (playback_follows_completion_order later_returns_first). reflexivity.
Defined.

(** C2 fails on the code: two sentences of one answer are handed to
    [playTTS] in the order 0, 1; the request for the second returns
    first, and the second clip is played before the first. [playTTS]
    reaches [queueAudio], under its comment on sequential playback, only
    after its awaits, so the queue holds the clips in return order. *)
Lemma later_clip_plays_first :
  requests later_returns_first = [0; 1]
  /\ started (run idle later_returns_first) = [1; 0]
  /\ started (run idle later_returns_first) <> requests later_returns_first.
Proof. split; [reflexivity|]. split; [reflexivity|]. vm_compute. discriminate. Qed.

(** Stopping empties the queue, resets the driver flag and pauses the
    element, and stopping again changes nothing; [playTTS] has no check
    after its await, so the clip of a request that returns next goes
    through [queueAudio] as any other and is started. *)
Theorem stop_clears_queue_but_late_clips_play (p : player) (k : clip) :
  audioQueue (stopAudio p) = []
  /\ isPlayingQueue (stopAudio p) = false
  /\ isPlayingAudio (stopAudio p) = false
  /\ paused <$> audio (stopAudio p) = (fun _ => true) <$> audio p
  /\ started (stopAudio p) = started p
  /\ stopAudio (stopAudio p) = stopAudio p
  /\ audioQueue (stopAudio (stopAudio p)) = []
  /\ started (step (stopAudio p) (Returns k Synthesized)) = started p ++ [k]
  /\ audio (step (stopAudio p) (Returns k Synthesized)) = Some {| src := k; paused := false |}
  /\ audioQueue (step (stopAudio p) (Returns k Synthesized)) = [].
Proof.
  destruct p as [q f [a|] g i s]; repeat split.
Qed.

(** C8 fails on the code: two texts of one answer are handed to
    [playTTS]; the first clip plays and the request for the second is in
    flight when the audio is stopped; when that request returns its clip
    is not discarded but played, the element holding it unpaused. *)
Lemma clip_in_flight_at_stop_is_played :
  inFlight (run idle before_stop) = [1]
  /\ started (run idle before_stop) = [0]
  /\ started (run idle stop_with_request_in_flight) = [0; 1]
  /\ audio (run idle stop_with_request_in_flight) = Some {| src := 1; paused := false |}.
Proof. repeat split. Qed.

End PlaybackFacts.

(** ** The prompt of debate-continue (C6) *)

Module PromptFacts.

Import Edge Continue Turn.

Lemma slice_last_length {A} (k : nat) (a : list A) :
  length (slice_last k a) = min k (length a).
Proof. unfold slice_last. rewrite length_drop. lia. Qed.

Lemma slice_last_suffix {A} (k : nat) (a : list A) :
  take (length a - k) a ++ slice_last k a = a.
Proof. apply take_drop. Qed.

Lemma slice_last_idemp {A} (k : nat) (a : list A) :
  slice_last k (slice_last k a) = slice_last k a.
Proof.
  unfold slice_last at 1. rewrite slice_last_length.
  replace (min k (length a) - k) with 0 by lia. done.
Qed.

Lemma conversationSummary_recent (h : list HistoryMessage) :
  conversationSummary (slice_last 6 h) = conversationSummary h.
Proof. unfold conversationSummary. by rewrite slice_last_idemp. Qed.

Lemma infix_here (x r : jsstring) : exists pre post, x ++ r = pre ++ x ++ post.
Proof. by exists [], r. Qed.

Lemma infix_later (a X x : jsstring) :
  (exists pre post, X = pre ++ x ++ post) -> exists pre post, a ++ X = pre ++ x ++ post.
Proof. intros (pre & post & ->). exists (a ++ pre), post. by rewrite app_assoc. Qed.

Ltac find_infix :=
  repeat first [ apply infix_here | apply infix_later ].




End PromptFacts.

(** ** The forwarded event stream (C7) *)

Module StreamFacts.

Import Edge Continue Turn.

Lemma chained_snoc_delta (prev : jsstring) (events : list sse) (text : jsstring) :
  chained prev events ->
  chained prev (events ++ [Delta text (reach prev events ++ text)]).
Proof.
  revert prev; induction events as [|e events IH]; intros prev Hc; simpl.
  - repeat split. apply drop_app_length.
  - destruct e as [t ft|ft rs n]; simpl in *.
    + destruct Hc as (H1 & H2 & H3). repeat split; try done. by apply IH.
    + destruct Hc as (H1 & H2). split; [done|]. by apply IH.
Qed.

Lemma chained_snoc_done (prev : jsstring) (events : list sse)
    (rs : list Page.Source) (n : nat) :
  chained prev events ->
  chained prev (events ++ [Done (reach prev events) rs n]).
Proof.
  revert prev; induction events as [|e events IH]; intros prev Hc; simpl.
  - done.
  - destruct e as [t ft|ft rs' n']; simpl in *.
    + destruct Hc as (H1 & H2 & H3). repeat split; try done. by apply IH.
    + destruct Hc as (H1 & H2). split; [done|]. by apply IH.
Qed.

Lemma reach_snoc (prev : jsstring) (events : list sse) (e : sse) :
  reach prev (events ++ [e]) = match e with Delta _ ft => ft | Done ft _ _ => ft end.
Proof. unfold reach. by rewrite foldl_app. Qed.

Lemma on_line_forwarded (W : World) (f : forwarding) (line : jsstring) :
  forwarded f -> forwarded (on_line W f line).
Proof.
  intros [Hc Hr]. unfold on_line.
  repeat case_match; try done.
  split; simpl.
  - rewrite <- Hr. by apply chained_snoc_delta.
  - by rewrite reach_snoc.
Qed.

Lemma on_chunk_forwarded (W : World) (f : forwarding) (chunk : jsstring) :
  forwarded f -> forwarded (on_chunk W f chunk).
Proof.
  unfold on_chunk. generalize (split_lines chunk) as ls.
  intros ls; revert f; induction ls as [|l ls IH]; intros f Hf; [done|].
  simpl. apply IH. by apply on_line_forwarded.
Qed.

Lemma forward_forwarded (W : World) (chunks : list jsstring) :
  forwarded (forward W chunks).
Proof.
  unfold forward.
  assert (H0 : forwarded {| fullAnswer := []; enqueued := [] |}) by done.
  revert H0. generalize {| fullAnswer := []; enqueued := [] |} as f.
  induction chunks as [|c cs IH]; intros f Hf; [done|].
  simpl. apply IH. by apply on_chunk_forwarded.
Qed.

Lemma stream_chained (W : World) (req : ContinueDebateRequest) (embedding : vector)
    (corpusMatches : list match_t) (body : option (list jsstring * Page.ending)) :
  chained [] (events_of (stream W req embedding corpusMatches body).1).
Proof.
  unfold stream. destruct body as [[chunks [|]]|]; simpl; [| |done].
  - destruct (forward_forwarded W chunks) as [Hc Hr].
    assert (chained [] (enqueued (forward W chunks)
                        ++ [Done (fullAnswer (forward W chunks))
                              (imap to_source corpusMatches) (turn_index req + 1)])).
    { rewrite <- Hr. by apply chained_snoc_done. }
    repeat case_match; done.
  - apply forward_forwarded.
Qed.

Lemma serve_chained (W : World) (req : ContinueDebateRequest) :
  chained [] (events_of (serve W req).1).
Proof.
  unfold serve.
  destruct (missing _ || missing _); [done|].
  destruct (embedContent W (user_reply req)) as [|[|] t [embedding|]]; try done.
  destruct (retrieve W embedding (session_id req)) as [e|[cm sm]]; [done|].
  destruct (streamGenerateContent W (prompt cm sm req)) as [|[|] t' body]; try done.
  pose proof (stream_chained W req embedding cm body) as Hs.
  destruct (stream W req embedding cm body) as [res more]. exact Hs.
Qed.

(** C7: in every event stream the function writes, the [fullText] of each
    incremental event is the [fullText] of the event before it (the empty
    text at the start) followed by the event's own text, so that the part
    of [fullText] past the previous length is exactly that text; the
    terminal event repeats the text reached. *)
Theorem forwarded_fullText_grows_by_its_delta (W : World) (req : ContinueDebateRequest) :
  chained [] (events_of (serve W req).1).
Proof. apply serve_chained. Qed.

Lemma startsWith_app (p t : jsstring) : startsWith p (p ++ t) = true.
Proof.
  induction p as [|a p IH]; [done|]. simpl. by rewrite N.eqb_refl, IH.
Qed.

Lemma chained_incremental (prev : jsstring) (events : list sse) :
  chained prev events -> Segmenter.incremental prev (fullTexts events) = true.
Proof.
  revert prev; induction events as [|e events IH]; intros prev Hc; [done|].
  destruct e as [t ft|ft rs n]; simpl in Hc.
  - destruct Hc as (-> & _ & Hc).
    change (fullTexts (Delta t (prev ++ t) :: events))
      with ((prev ++ t) :: fullTexts events).
    simpl. rewrite startsWith_app. by apply IH.
  - destruct Hc as (-> & Hc). by apply IH.
Qed.

(** The updates the function sends are incremental: they are the inputs
    the statement on the sentences of an answer is about. *)
Lemma forwarded_updates_are_incremental (W : World) (req : ContinueDebateRequest) :
  Segmenter.incremental [] (fullTexts (events_of (serve W req).1)) = true.
Proof. apply chained_incremental, serve_chained. Qed.

End StreamFacts.

(** ** Retrieval, session memory and turn indices (C4, C9, C3) *)

Module EdgeFacts.

Import Edge Continue Turn.

Lemma retrieve_found (W : World) (embedding : vector) (session : jsstring) :
  found (retrieve W embedding session)
  = succeeded (pinecone_query W (corpus_query embedding))
    && succeeded (pinecone_query W (session_query embedding session)).
Proof.
  unfold retrieve.
  destruct (pinecone_query W (corpus_query embedding)) as [|[|] ? [?|]];
    destruct (pinecone_query W (session_query embedding session)) as [|[|] ? [?|]];
    reflexivity.
Qed.

(** C4: once the reply is embedded, the corpus query (top 7, global
    namespace) and the session query (top 3, the session's namespace) are
    both sent whatever either answers; retrieval yields matches exactly
    when both queries succeed; and when one of them fails the handler
    replies with status 500 without having asked for a generation. *)
Theorem retrieval_fails_unless_both_scopes_answer
    (W : World) (req : ContinueDebateRequest) (embedding : vector) (t : jsstring) :
  configured W = true ->
  embedContent W (user_reply req) = Resp true t (Some embedding) ->
  let corpus := {| q_vector := embedding; topK := 7; includeMetadata := true;
                   namespace := [] |} in
  let session := {| q_vector := embedding; topK := 3; includeMetadata := true;
                    namespace := session_id req |} in
  (exists rest, (serve W req).2 = Embed (user_reply req) :: Query corpus :: Query session :: rest)
  /\ found (retrieve W embedding (session_id req))
     = succeeded (pinecone_query W corpus) && succeeded (pinecone_query W session)
  /\ (if succeeded (pinecone_query W corpus) && succeeded (pinecone_query W session)
      then is_error (serve W req).1 = false
           \/ exists e, (serve W req).1 = Status500 e /\ e <> PineconeQueryFailed None
      else exists e, serve W req
                     = (Status500 e, [Embed (user_reply req); Query corpus; Query session])).
Proof.
  intros Hcfg Hemb corpus session.
  pose proof (retrieve_found W embedding (session_id req)) as Hfound.
  change (corpus_query embedding) with corpus in Hfound.
  change (session_query embedding (session_id req)) with session in Hfound.
  unfold configured in Hcfg. apply negb_true_iff in Hcfg.
  assert (Hserve : serve W req
                   = match retrieve W embedding (session_id req) with
                     | inl e => (Status500 e,
                                 [Embed (user_reply req); Query corpus; Query session])
                     | inr (cm, sm) =>
                         match streamGenerateContent W (prompt cm sm req) with
                         | Throws =>
                             (Status500 Thrown,
                              [Embed (user_reply req); Query corpus; Query session;
                               Generate (prompt cm sm req)])
                         | Resp false errorText _ =>
                             (Status500 (LLMFailed errorText),
                              [Embed (user_reply req); Query corpus; Query session;
                               Generate (prompt cm sm req)])
                         | Resp true _ body =>
                             ((stream W req embedding cm body).1,
                              [Embed (user_reply req); Query corpus; Query session;
                               Generate (prompt cm sm req)]
                              ++ (stream W req embedding cm body).2)
                         end
                     end).
  { unfold serve. rewrite Hcfg, Hemb.
    destruct (retrieve W embedding (session_id req)) as [e|[cm sm]]; [done|].
    destruct (streamGenerateContent W (prompt cm sm req)) as [|[|] t' body]; try done.
    by destruct (stream W req embedding cm body). }
  rewrite Hserve. clear Hserve.
  destruct (retrieve W embedding (session_id req)) as [e|[cm sm]] eqn:Hr;
    simpl in Hfound; rewrite <- Hfound.
  - split; [eauto|]. split; [done|]. eauto.
  - split.
    { destruct (streamGenerateContent W (prompt cm sm req)) as [|[|] t' body];
        simpl; eauto. }
    split; [done|].
    destruct (streamGenerateContent W (prompt cm sm req)) as [|[|] t' body]; simpl.
    + right. eexists; split; [done|discriminate].
    + destruct (stream W req embedding cm body) as [[e|evs fin] more] eqn:Hs; simpl.
      * exfalso. unfold stream in Hs. repeat case_match; simplify_eq.
      * by left.
    + right. eexists; split; [done|discriminate].
Qed.

Lemma retrieval_fails_unless_both_scopes_answer_witness :
  succeeded (pinecone_query Scenario.world_without_session
               (corpus_query [21 # 1])) = true
  /\ succeeded (pinecone_query Scenario.world_without_session
                  (session_query [21 # 1] (u "s1"))) = false
  /\ is_error (serve Scenario.world_without_session Scenario.reply).1 = true.
Proof.
  destruct (retrieval_fails_unless_both_scopes_answer
              Scenario.world_without_session Scenario.reply [21 # 1] []
              eq_refl eq_refl) as (_ & _ & Hfail).
  change (exists e, serve Scenario.world_without_session Scenario.reply
                    = (Status500 e,
                       [Embed (u "Costs are manageable.");
                        Query (corpus_query [21 # 1]);
                        Query (session_query [21 # 1] (u "s1"))])) in Hfail.
  split; [reflexivity|]. split; [reflexivity|].
  destruct Hfail as [e He]. rewrite He. reflexivity.
Defined.

Lemma stream_done_inv (W : World) (req : ContinueDebateRequest) (embedding : vector)
    (corpusMatches : list match_t) (body : option (list jsstring * Page.ending))
    (events : list sse) (calls : list call)
    (answer : jsstring) (srcs : list Page.Source) (n : nat) :
  stream W req embedding corpusMatches body = (EventStream events Closed, calls) ->
  last events = Some (Done answer srcs n) ->
  n = turn_index req + 1
  /\ srcs = imap to_source corpusMatches
  /\ exists ok t aiEmbedding,
       embedContent W answer = Resp ok t (Some aiEmbedding)
       /\ calls = [Upsert (user_upsert W req embedding); Embed answer;
                   Upsert (ai_upsert W req answer aiEmbedding)].
Proof.
  unfold stream. intros Hs Hlast.
  destruct body as [[chunks [|]]|]; simplify_eq.
  destruct (embedContent W (fullAnswer (forward W chunks)))
    as [|ok t [aiEmbedding|]] eqn:He; simplify_eq.
  rewrite last_snoc in Hlast. simplify_eq. eauto 10.
Qed.

(** C9: when the function has streamed an answer to its end, the requests
    it sent are, in order: one embedding of the user's reply, the two
    queries, the generation, the upsert of the user turn with that same
    embedding, one embedding of the answer, and the upsert of the
    assistant turn with the fresh embedding. Both upserts go to the
    session's namespace under [{session}::turn::{index}], with the role,
    the text, the index and a timestamp. *)
Theorem turns_are_written_under_deterministic_ids
    (W : World) (req : ContinueDebateRequest) (events : list sse) (calls : list call)
    (answer : jsstring) (srcs : list Page.Source) (n : nat) :
  serve W req = (EventStream events Closed, calls) ->
  last events = Some (Done answer srcs n) ->
  exists embedding aiEmbedding t ok t' corpusMatches sessionMatches,
    embedContent W (user_reply req) = Resp true t (Some embedding)
    /\ embedContent W answer = Resp ok t' (Some aiEmbedding)
    /\ calls =
       [Embed (user_reply req);
        Query (corpus_query embedding);
        Query (session_query embedding (session_id req));
        Generate (prompt corpusMatches sessionMatches req);
        Upsert {| up_id := session_id req ++ u "::turn::" ++ show (turn_index req);
                  up_values := embedding;
                  up_role := u "user";
                  up_text := user_reply req;
                  up_turn_index := turn_index req;
                  up_timestamp := toISOString W 0;
                  up_extra := None;
                  up_namespace := session_id req |};
        Embed answer;
        Upsert {| up_id := session_id req ++ u "::turn::" ++ show (turn_index req + 1);
                  up_values := aiEmbedding;
                  up_role := u "assistant";
                  up_text := answer;
                  up_turn_index := turn_index req + 1;
                  up_timestamp := toISOString W 1;
                  up_extra := None;
                  up_namespace := session_id req |}].
Proof.
  unfold serve. intros Hs Hlast.
  destruct (missing _ || missing _); [done|].
  destruct (embedContent W (user_reply req)) as [|[|] t [embedding|]] eqn:He; try done.
  destruct (retrieve W embedding (session_id req)) as [e|[cm sm]]; [done|].
  destruct (streamGenerateContent W (prompt cm sm req)) as [|[|] t' body]; try done.
  destruct (stream W req embedding cm body) as [res more] eqn:Hst. simplify_eq.
  destruct (stream_done_inv _ _ _ _ _ _ _ _ _ _ Hst Hlast)
    as (-> & -> & ok & t2 & aiEmbedding & Hai & ->).
  exists embedding, aiEmbedding, t, ok, t2, cm, sm. done.
Qed.

Lemma turns_are_written_under_deterministic_ids_witness :
  exists calls,
    (serve Scenario.world Scenario.reply).2 = calls
    /\ (fun c => match c with Upsert v => Some (up_id v, up_role v) | _ => None end) <$> calls
       = [None; None; None; None; Some (u "s1::turn::1", u "user"); None;
          Some (u "s1::turn::2", u "assistant")].
Proof.
  destruct (turns_are_written_under_deterministic_ids Scenario.world Scenario.reply
              (events_of (serve Scenario.world Scenario.reply).1)
              (serve Scenario.world Scenario.reply).2
              (u "The claim is false. Evidence [Source 1] shows otherwise.")
              (imap to_source Scenario.corpus) 2 eq_refl eq_refl)
    as (embedding & aiEmbedding & t & ok & t' & cm & sm & He & Ha & Hcalls).
  exists (serve Scenario.world Scenario.reply).2. split; [reflexivity|].
  rewrite Hcalls. reflexivity.
Defined.

Lemma user_turn_written_at_request_index
    (W : World) (req : ContinueDebateRequest) (events : list sse) (calls : list call)
    (answer : jsstring) (srcs : list Page.Source) (n : nat) :
  serve W req = (EventStream events Closed, calls) ->
  last events = Some (Done answer srcs n) ->
  n = turn_index req + 1
  /\ exists b, Upsert b ∈ calls /\ up_role b = u "user"
       /\ up_turn_index b = turn_index req
       /\ up_id b = turn_id (session_id req) (turn_index req)
       /\ up_namespace b = session_id req.
Proof.
  unfold serve. intros Hs Hlast.
  destruct (missing _ || missing _); [done|].
  destruct (embedContent W (user_reply req)) as [|[|] t [embedding|]] eqn:He; try done.
  destruct (retrieve W embedding (session_id req)) as [e|[cm sm]]; [done|].
  destruct (streamGenerateContent W (prompt cm sm req)) as [|[|] t' body]; try done.
  destruct (stream W req embedding cm body) as [res more] eqn:Hst. simplify_eq.
  destruct (stream_done_inv _ _ _ _ _ _ _ _ _ _ Hst Hlast)
    as (-> & -> & ok & t2 & aiEmbedding & Hai & ->).
  split; [done|]. exists (user_upsert W req embedding). split; [|done].
  set_solver.
Qed.

(** C3 fails on the code: the index debate-start returns is the one it
    gave to its own assistant turn, the page sends it back unchanged, and
    debate-continue gives it to the next user turn. So the first reply is
    written under the identifier of the opening answer, in the same
    namespace, and each exchange advances the index by one, not two. *)
Theorem next_user_turn_reuses_the_assistant_index
    (W : World) (opening : Start.StartDebateRequest) (first : Start.started)
    (sent : list call) (req : ContinueDebateRequest) (events : list sse)
    (calls : list call) (answer : jsstring) (srcs : list Page.Source) (n : nat) :
  Start.serve W opening = (inr first, sent) ->
  session_id req = Start.r_session_id first ->
  turn_index req = Start.r_turn_index first ->
  serve W req = (EventStream events Closed, calls) ->
  last events = Some (Done answer srcs n) ->
  Start.r_turn_index first = 1
  /\ n = Start.r_turn_index first + 1
  /\ exists a b,
       Upsert a ∈ sent /\ Upsert b ∈ calls
       /\ up_role a = u "assistant" /\ up_role b = u "user"
       /\ up_turn_index a = 1 /\ up_turn_index b = 1
       /\ up_id a = up_id b /\ up_namespace a = up_namespace b.
Proof.
  intros Hstart Hsid Hidx Hserve Hlast.
  destruct (user_turn_written_at_request_index W req events calls answer srcs n
              Hserve Hlast) as (Hn & b & Hb & Hrole & Hbi & Hbid & Hbns).
  unfold Start.serve in Hstart.
  repeat case_match; simplify_eq. simpl in *.
  split; [done|]. split; [lia|].
  match goal with
  | H : negb (vectors_upsert W (Start.ai_upsert W opening ?ans ?v)) = false |- _ =>
      exists (Start.ai_upsert W opening ans v), b
  end.
  split; [set_solver|].
  split; [exact Hb|].
  simpl. rewrite Hrole, Hbi, Hbid, Hbns, Hsid, Hidx. done.
Qed.

Lemma next_user_turn_reuses_the_assistant_index_witness :
  (fun c => match c with Upsert v => Some (up_id v, up_role v) | _ => None end)
    <$> (Start.serve Scenario.world Scenario.opening).2
  = [None; None; None; Some (u "s1::turn::0", u "user"); None;
     Some (u "s1::turn::1", u "assistant")]
  /\ exists a b,
       Upsert a ∈ (Start.serve Scenario.world Scenario.opening).2
       /\ Upsert b ∈ (serve Scenario.world Scenario.reply).2
       /\ up_role a = u "assistant" /\ up_role b = u "user"
       /\ up_id a = up_id b.
Proof.
  split; [vm_compute; reflexivity|].
  destruct (next_user_turn_reuses_the_assistant_index
              Scenario.world Scenario.opening Scenario.opened
              (Start.serve Scenario.world Scenario.opening).2
              Scenario.reply
              (events_of (serve Scenario.world Scenario.reply).1)
              (serve Scenario.world Scenario.reply).2
              (u "The claim is false. Evidence [Source 1] shows otherwise.")
              (imap to_source Scenario.corpus) 2)
    as (_ & _ & a & b & Ha & Hb & Hra & Hrb & _ & _ & Hid & _);
    [vm_compute; reflexivity | reflexivity | reflexivity
    | vm_compute; reflexivity | vm_compute; reflexivity |].
  exists a, b. done.
Defined.

(** In the scenario, once the opening exchange and the first reply are
    written, the vector stored under the index of the opening answer is
    the user's reply. *)
Lemma first_answer_is_overwritten :
  up_role <$> (namespace_after (u "s1")
                 ((Start.serve Scenario.world Scenario.opening).2
                  ++ (serve Scenario.world Scenario.reply).2) ∅
               !! u "s1::turn::1")
  = Some (u "user")
  /\ up_text <$> (namespace_after (u "s1")
                    (Start.serve Scenario.world Scenario.opening).2 ∅
                  !! u "s1::turn::1")
     = Some (u "I disagree.").
Proof. split; vm_compute; reflexivity. Qed.

End EdgeFacts.

(** ** Failed turns and unreadable lines (C5, C10) *)

Module PageFacts.

Import Edge Page Turn.

Lemma array_set_placeholder (c : list slot) (a b : slot) (x : Message) :
  array_set (c ++ [a; b]) (length c + 1) x = c ++ [a; Some x].
Proof.
  unfold array_set. rewrite length_app. simpl.
  case_decide; [|lia].
  rewrite insert_app_r_alt by lia.
  replace (length c + 1 - length c) with 1 by lia. done.
Qed.

Lemma slice_but_last_placeholder (c : list slot) (a b : slot) :
  slice_but_last 2 (c ++ [a; b]) = c.
Proof.
  unfold slice_but_last. rewrite length_app. simpl.
  apply take_app_length'. lia.
Qed.

Section Reading.

Variable JSON_parse : jsstring -> option payload.
Variable c : list slot.

Lemma on_parsed_keeps_history (r : reading) (parsed : payload) :
  keeps_history c r -> keeps_history c (on_parsed (length c + 1) r parsed).
Proof.
  intros (a & b & Hs). unfold on_parsed, on_fullText.
  repeat case_match; unfold keeps_history; simpl; rewrite ?Hs, ?array_set_placeholder; eauto.
Qed.

Lemma on_line_keeps_history (r : reading) (line : jsstring) :
  keeps_history c r -> keeps_history c (on_line JSON_parse (length c + 1) r line).
Proof.
  intros Hr. unfold on_line. repeat case_match; try done.
  by apply on_parsed_keeps_history.
Qed.

Lemma on_chunk_keeps_history (r : reading) (chunk : jsstring) :
  keeps_history c r -> keeps_history c (on_chunk JSON_parse (length c + 1) r chunk).
Proof.
  unfold on_chunk. generalize (split_lines chunk) as ls. intros ls; revert r.
  induction ls as [|l ls IH]; intros r Hr; [done|].
  simpl. apply IH. by apply on_line_keeps_history.
Qed.

Lemma read_loop_keeps_history (r : reading) (chunks : list jsstring) :
  keeps_history c r -> keeps_history c (read_loop JSON_parse (length c + 1) r chunks).
Proof.
  unfold read_loop. revert r.
  induction chunks as [|ch chunks IH]; intros r Hr; [done|].
  simpl. apply IH. by apply on_chunk_keeps_history.
Qed.

End Reading.

(** Whatever makes the [try] block throw, the conversation is the one of
    before the turn. *)
Lemma failed_response_restores_conversation
    (JSON_parse : jsstring -> option payload) (fetch : request -> response) (st : page) :
  sendable st = true ->
  fails (fetch {| session_id := sessionId st; user_reply := userInput st;
                  turn_index := turnIndex st; category := topic st;
                  debate_experience := debateExperience st; ai_level := aiLevel st;
                  conversation_history := conversation st |}) = true ->
  conversation (after (handleSendMessage JSON_parse fetch st)) = conversation st
  /\ failed (handleSendMessage JSON_parse fetch st) = true
  /\ isLoading (after (handleSendMessage JSON_parse fetch st)) = false.
Proof.
  unfold sendable, handleSendMessage. intros Hsend Hfail.
  apply andb_true_iff in Hsend as [Hin Hload].
  rewrite Hin. apply negb_true_iff in Hload. rewrite Hload. simpl.
  destruct (fetch _) as [|[|] [[chunks [|]]|]]; simpl in *; try done;
    try (rewrite <- app_assoc; simpl; by rewrite slice_but_last_placeholder).
  match goal with |- context [read_loop _ _ ?r0 _] =>
    destruct (read_loop_keeps_history JSON_parse (conversation st) r0 chunks)
      as (a & b & Hs) end.
  { eexists _, _. simpl. by rewrite <- app_assoc. }
  by rewrite Hs, slice_but_last_placeholder.
Qed.

Lemma failed_stage_fails_response
    (W : World) (req : Continue.ContinueDebateRequest)
    (chunks_of : list Continue.sse -> list jsstring) (error_body : error -> jsstring) :
  embedding_ok W req && retrieval_ok W req && generation_ok W req = false ->
  fails (Continue.deliver chunks_of error_body (Continue.serve W req).1) = true.
Proof.
  unfold embedding_ok, retrieval_ok, generation_ok, Continue.serve.
  destruct (missing _ || missing _); [done|].
  destruct (embedContent W (Continue.user_reply req)) as [|[|] t [embedding|]]; try done.
  destruct (Continue.retrieve W embedding (Continue.session_id req)) as [e|[cm sm]];
    [done|].
  destruct (streamGenerateContent W (Continue.prompt cm sm req))
    as [|[|] t' [[chunks [|]]|]]; simpl; done.
Qed.

(** C5: when the embedding, the retrieval or the generation of a turn
    fails, the page ends the turn with the conversation it had before the
    turn: the user's message and the assistant's placeholder, whatever
    text it had received, are removed, and the failure notice is shown. *)
Theorem failed_turn_restores_conversation
    (JSON_parse : jsstring -> option payload)
    (chunks_of : list Continue.sse -> list jsstring) (error_body : error -> jsstring)
    (W : World) (req : Continue.ContinueDebateRequest) (st : page) :
  sendable st = true ->
  embedding_ok W req && retrieval_ok W req && generation_ok W req = false ->
  let out := handleSendMessage JSON_parse
               (fun _ => Continue.deliver chunks_of error_body (Continue.serve W req).1) st in
  conversation (after out) = conversation st
  /\ failed out = true
  /\ isLoading (after out) = false.
Proof.
  intros Hsend Hstage out.
  apply failed_response_restores_conversation; [done|].
  by apply failed_stage_fails_response.
Qed.

Lemma failed_turn_restores_conversation_witness :
  retrieval_ok Scenario.world_without_session Scenario.reply = false
  /\ generation_ok Scenario.world_with_broken_stream Scenario.reply = false
  /\ conversation
       (after (handleSendMessage Scenario.page_decode
                 (fun _ => Continue.deliver Scenario.one_chunk_per_event Scenario.error_text
                             (Continue.serve Scenario.world_without_session Scenario.reply).1)
                 Scenario.page_before))
     = conversation Scenario.page_before.
Proof.
  split; [vm_compute; reflexivity|]. split; [vm_compute; reflexivity|].
  apply (failed_turn_restores_conversation Scenario.page_decode
           Scenario.one_chunk_per_event Scenario.error_text
           Scenario.world_without_session Scenario.reply Scenario.page_before);
    vm_compute; reflexivity.
Defined.

Lemma decoded_cons (JSON_parse : jsstring -> option payload)
    (l : jsstring) (ls : list jsstring) :
  decoded JSON_parse (l :: ls)
  = match (if startsWith (u "data: ") l then JSON_parse (trim (drop 6 l)) else None) with
    | Some p => p :: decoded JSON_parse ls
    | None => decoded JSON_parse ls
    end.
Proof. reflexivity. Qed.

(** The read loop handles the lines of all chunks as the payloads they
    decode to, one after the other. *)
Lemma read_loop_decoded (JSON_parse : jsstring -> option payload) (idx : nat)
    (chunks : list jsstring) (r : reading) :
  read_loop JSON_parse idx r chunks
  = foldl (on_parsed idx) r (decoded JSON_parse (chunks ≫= split_lines)).
Proof.
  assert (Hlines : forall lines r,
             foldl (on_line JSON_parse idx) r lines
             = foldl (on_parsed idx) r (decoded JSON_parse lines)).
  { induction lines as [|l ls IH]; intros r'; [done|].
    change (foldl (on_line JSON_parse idx) r' (l :: ls))
      with (foldl (on_line JSON_parse idx) (on_line JSON_parse idx r' l) ls).
    rewrite IH, decoded_cons. unfold on_line.
    destruct (startsWith (u "data: ") l); [|reflexivity].
    destruct (JSON_parse (trim (drop 6 l))); reflexivity. }
  unfold read_loop. revert r.
  induction chunks as [|ch chunks IH]; intros r; [done|].
  simpl. rewrite IH. unfold on_chunk.
  rewrite Hlines, <- foldl_app. f_equal.
  unfold decoded. by rewrite omap_app.
Qed.

(** Where the lines of an answer decode to the updates [updates], the
    texts handed to [playTTS] are the sentences of those updates. *)
Lemma playTTS_calls_are_sentences (JSON_parse : jsstring -> option payload)
    (idx : nat) (c : list slot) (chunks : list jsstring) (updates : list jsstring) :
  decoded JSON_parse (chunks ≫= split_lines) = Segmenter.update <$> updates ->
  flush (read_loop JSON_parse idx (Segmenter.start_reading c) chunks)
  = Segmenter.sentences idx c updates.
Proof.
  intros Hd. unfold Segmenter.sentences, Segmenter.feed.
  rewrite read_loop_decoded, Hd. f_equal.
  generalize (Segmenter.start_reading c) as r.
  clear Hd. induction updates as [|ft us IH]; intros r; [reflexivity|].
  simpl. apply IH.
Qed.

(** After a turn that ran to its end the page's turn index is the one the
    terminal event announced, or the old one when no such event came. *)
Lemma turnIndex_follows_terminal_event
    (JSON_parse : jsstring -> option payload) (fetch : request -> response) (st : page)
    (chunks : list jsstring) :
  sendable st = true ->
  fetch {| session_id := sessionId st; user_reply := userInput st;
           turn_index := turnIndex st; category := topic st;
           debate_experience := debateExperience st; ai_level := aiLevel st;
           conversation_history := conversation st |}
  = Response true (Some (chunks, Eof)) ->
  turnIndex (after (handleSendMessage JSON_parse fetch st))
  = from_option p_turn_index (turnIndex st)
      (metadata (read_loop JSON_parse (length (conversation st) + 1)
                   (Segmenter.start_reading
                      ((conversation st
                        ++ [Some {| msg_role := user; content := userInput st |}])
                       ++ [Some {| msg_role := assistant; content := [] |}]))
                   chunks)).
Proof.
  unfold sendable, handleSendMessage. intros [Hin Hload]%andb_true_iff Hf.
  rewrite Hin. apply negb_true_iff in Hload. rewrite Hload. simpl.
  rewrite Hf. unfold Segmenter.start_reading.
  by destruct (metadata _).
Qed.

(** The first reply of the scenario: two sentences are spoken, the answer
    is shown after the user's message, and the page's turn index goes
    from 1 to 2. *)
Lemma first_reply_runs :
  playTTS_calls Scenario.first_reply
  = [u "The claim is false."; u "Evidence [Source 1] shows otherwise."]
  /\ conversation (after Scenario.first_reply)
     = conversation Scenario.page_before
       ++ [Some {| msg_role := user; content := u "Costs are manageable." |};
           Some {| msg_role := assistant;
                   content := u "The claim is false. Evidence [Source 1] shows otherwise." |}]
  /\ turnIndex Scenario.page_before = 1
  /\ turnIndex (after Scenario.first_reply) = 2
  /\ failed Scenario.first_reply = false.
Proof. repeat split; vm_compute; reflexivity. Qed.











End PageFacts.

(** ** More on the playback queue *)

Module PlayerInvariants.

Import Player Playback.

Lemma step_driver (p : player) (e : event) :
  (isPlayingAudio p = isPlayingQueue p
   /\ (isPlayingQueue p = true \/ audioQueue p = [])
   /\ (isPlayingQueue p = false
       \/ exists k, last (started p) = Some k
                    /\ audio p = Some {| src := k; paused := false |})) ->
  isPlayingAudio (step p e) = isPlayingQueue (step p e)
  /\ (isPlayingQueue (step p e) = true \/ audioQueue (step p e) = [])
  /\ (isPlayingQueue (step p e) = false
      \/ exists k, last (started (step p e)) = Some k
                   /\ audio (step p e) = Some {| src := k; paused := false |}).
Proof.
  intros (Ha & Hq & Hp).
  assert (Hnext : forall q : player,
             isPlayingAudio (playNextInQueue q) = isPlayingQueue (playNextInQueue q)
             /\ (isPlayingQueue (playNextInQueue q) = true
                 \/ audioQueue (playNextInQueue q) = [])
             /\ (isPlayingQueue (playNextInQueue q) = false
                 \/ exists k, last (started (playNextInQueue q)) = Some k
                              /\ audio (playNextInQueue q)
                                 = Some {| src := k; paused := false |})).
  { intros q. unfold playNextInQueue. destruct (audioQueue q) as [|k rest]; simpl.
    - auto.
    - split; [done|]. split; [by left|]. right. exists k. by rewrite last_snoc. }
  destruct e as [k|k [| |]| | | |]; simpl; try apply Hnext; try (by repeat split).
  - unfold playTTS_returns, queueAudio; simpl.
    destruct (isPlayingQueue p) eqn:Hplay; simpl.
    + split; [done|]. split; [by left|]. exact Hp.
    + apply Hnext.
  - repeat split; auto.
Qed.

(** X1: whatever happens on the page, the flag behind the stop button
    agrees with the driver flag, no clip waits in the queue while the
    driver is not running, and while it runs the element holds, unpaused,
    the clip started last. *)
Theorem driver_flags_agree_and_queue_never_stalls (tr : list event) :
  isPlayingAudio (run idle tr) = isPlayingQueue (run idle tr)
  /\ (isPlayingQueue (run idle tr) = true \/ audioQueue (run idle tr) = [])
  /\ (isPlayingQueue (run idle tr) = false
      \/ exists k, last (started (run idle tr)) = Some k
                   /\ audio (run idle tr) = Some {| src := k; paused := false |}).
Proof.
  induction tr as [|e tr IH] using rev_ind.
  - simpl. auto.
  - unfold run in *. rewrite foldl_app. simpl. by apply step_driver.
Qed.

Lemma run_played_sublist (tr : list event) (p : player) (done_before : list clip) :
  started p ++ audioQueue p `sublist_of` done_before ->
  started (run p tr) ++ audioQueue (run p tr) `sublist_of` done_before ++ completions tr.
Proof.
  revert p done_before; induction tr as [|e tr IH]; intros p d Hsub.
  - simpl. by rewrite app_nil_r.
  - change (run p (e :: tr)) with (run (step p e) tr).
    assert (Hnext : forall q : player,
               started (playNextInQueue q) ++ audioQueue (playNextInQueue q)
               = started q ++ audioQueue q).
    { intros q. unfold playNextInQueue. destruct (audioQueue q); simpl; [done|].
      by rewrite <- app_assoc. }
    destruct e as [k|k [| |]| | | |]; simpl completions;
      try (apply IH; simpl; rewrite ?Hnext; exact Hsub).
    + replace (d ++ k :: completions tr) with ((d ++ [k]) ++ completions tr)
        by (by rewrite <- app_assoc).
      apply IH. simpl. unfold playTTS_returns, queueAudio; simpl.
      destruct (isPlayingQueue p); rewrite ?Hnext; simpl;
        rewrite app_assoc; by apply sublist_app.
    + apply IH. simpl. rewrite app_nil_r.
      etrans; [|exact Hsub]. by apply sublist_inserts_r.
Qed.

(** X2: whatever happens on the page, stops included, the clips played
    followed by the clips queued are taken, in order, from the clips whose
    synthesis succeeded, each at most as often as it was synthesized: a
    failed synthesis is never played, and no clip is played twice or out
    of the order in which the requests returned. *)
Theorem played_clips_are_completed_clips_in_order (tr : list event) :
  started (run idle tr) ++ audioQueue (run idle tr) `sublist_of` completions tr
  /\ started (run idle tr) `sublist_of` completions tr.
Proof.
  assert (H : started (run idle tr) ++ audioQueue (run idle tr)
              `sublist_of` completions tr).
  { apply (run_played_sublist tr idle []). done. }
  split; [exact H|]. etrans; [|exact H]. by apply sublist_inserts_r.
Qed.

End PlayerInvariants.

(** ** More on the read loop of the page *)

Module ReadingFacts.

Import Page Turn Reading.

Lemma received_cons (p : payload) (ps : list payload) :
  received (p :: ps)
  = match (if p_done p then None
           else match p_fullText p with
                | Some ft => if truthy ft then Some ft else None
                | None => None
                end) with
    | Some ft => ft :: received ps
    | None => received ps
    end.
Proof. reflexivity. Qed.

Lemma on_parsed_shows_text (c : list slot) (m : slot) (r : reading) (p : payload) :
  shows_text c m r ->
  shows_text c m (on_parsed (length c + 1) r p)
  /\ fullText (on_parsed (length c + 1) r p) = List.last (received [p]) (fullText r).
Proof.
  unfold shows_text, on_parsed, on_fullText. intros Hs. rewrite received_cons.
  destruct (p_done p); [done|].
  destruct (p_fullText p) as [ft|]; [|done].
  destruct (truthy ft); [|done].
  destruct (sentence_match _); simpl; by rewrite Hs, PageFacts.array_set_placeholder.
Qed.

Lemma payloads_show_text (c : list slot) (m : slot) (ps : list payload) (r : reading) :
  shows_text c m r ->
  shows_text c m (foldl (on_parsed (length c + 1)) r ps)
  /\ fullText (foldl (on_parsed (length c + 1)) r ps) = List.last (received ps) (fullText r).
Proof.
  revert r; induction ps as [|p ps IH]; intros r Hs; [done|].
  destruct (on_parsed_shows_text c m r p Hs) as [Hs1 Hf1].
  destruct (IH _ Hs1) as [Hs2 Hf2].
  split; [exact Hs2|]. simpl foldl. rewrite Hf2, Hf1, received_cons.
  rewrite received_cons. simpl.
  destruct (if p_done p then None else _) as [ft|]; simpl; [|done].
  destruct (received ps) as [|x xs]; [done|].
  apply SegmenterFacts.last_cons_default.
Qed.

(** X3: after a turn that ran to its end, the conversation is the one of
    before the turn followed by the user's message and by one assistant
    message whose content is the last non-empty [fullText] a
    non-terminal event carried (empty when there was none); the input is
    cleared, the page is no longer loading and no failure is shown. *)
Theorem finished_turn_shows_last_fullText
    (JSON_parse : jsstring -> option payload) (fetch : request -> response) (st : page)
    (chunks : list jsstring) :
  sendable st = true ->
  fetch {| session_id := sessionId st; user_reply := userInput st;
           turn_index := turnIndex st; category := topic st;
           debate_experience := debateExperience st; ai_level := aiLevel st;
           conversation_history := conversation st |}
  = Response true (Some (chunks, Eof)) ->
  conversation (after (handleSendMessage JSON_parse fetch st))
  = conversation st
    ++ [Some {| msg_role := user; content := userInput st |};
        Some {| msg_role := assistant;
                content := List.last (received (decoded JSON_parse (chunks ≫= split_lines)))
                             [] |}]
  /\ userInput (after (handleSendMessage JSON_parse fetch st)) = []
  /\ isLoading (after (handleSendMessage JSON_parse fetch st)) = false
  /\ failed (handleSendMessage JSON_parse fetch st) = false.
Proof.
  unfold sendable, handleSendMessage. intros [Hin Hload]%andb_true_iff Hf.
  rewrite Hin. apply negb_true_iff in Hload. rewrite Hload. simpl.
  rewrite Hf, PageFacts.read_loop_decoded.
  match goal with |- context [foldl _ ?r0 ?ps] =>
    destruct (payloads_show_text (conversation st)
                (Some {| msg_role := user; content := userInput st |}) ps r0)
      as [Hs Hft] end.
  { unfold shows_text. simpl. by rewrite <- app_assoc. }
  unfold shows_text in Hs. rewrite Hft in Hs. simpl in Hs.
  destruct (metadata _); simpl; by rewrite Hs.
Qed.

Lemma finished_turn_shows_last_fullText_witness :
  conversation (after Scenario.first_reply)
  = conversation Scenario.page_before
    ++ [Some {| msg_role := user; content := u "Costs are manageable." |};
        Some {| msg_role := assistant;
                content := u "The claim is false. Evidence [Source 1] shows otherwise." |}].
Proof.
  destruct (finished_turn_shows_last_fullText Scenario.page_decode
              (fun _ => Continue.deliver Scenario.one_chunk_per_event Scenario.error_text
                          (Continue.serve Scenario.world Scenario.reply).1)
              Scenario.page_before
              (Scenario.one_chunk_per_event
                 (events_of (Continue.serve Scenario.world Scenario.reply).1)))
    as (Hc & _); [vm_compute; reflexivity | vm_compute; reflexivity |].
  etrans; [exact Hc|]. vm_compute. reflexivity.
Defined.

End ReadingFacts.

(** ** What is handed to speech synthesis *)

Module SpokenFacts.

Import Page Turn Reading.

Lemma trimStart_idemp (s : jsstring) : trimStart (trimStart s) = trimStart s.
Proof.
  induction s as [|c s IH]; [done|]. simpl.
  destruct (is_space c) eqn:Hc; [done|]. simpl. by rewrite Hc.
Qed.

Lemma trimEnd_idemp (s : jsstring) : trimEnd (trimEnd s) = trimEnd s.
Proof. unfold trimEnd. by rewrite reverse_involutive, trimStart_idemp. Qed.

Lemma trimStart_keeps (l : jsstring) (c : N) (t : jsstring) :
  is_space c = false -> exists l', trimStart (l ++ c :: t) = l' ++ c :: t.
Proof.
  intros Hc. induction l as [|a l IH]; simpl.
  - rewrite Hc. by exists [].
  - destruct (is_space a); [exact IH|]. by exists (a :: l).
Qed.

Lemma trimEnd_snoc (l : jsstring) (d : N) :
  trimEnd (l ++ [d]) = if is_space d then trimEnd l else l ++ [d].
Proof.
  unfold trimEnd. rewrite reverse_snoc. simpl.
  destruct (is_space d); [done|]. by rewrite reverse_cons, reverse_involutive.
Qed.

Lemma trimEnd_keeps_head (c : N) (t : jsstring) :
  is_space c = false -> exists r, trimEnd (c :: t) = c :: r.
Proof.
  intros Hc. induction t as [|d t IH] using rev_ind.
  - exists []. change [c] with ([] ++ [c]). by rewrite trimEnd_snoc, Hc.
  - change (c :: t ++ [d]) with ((c :: t) ++ [d]). rewrite trimEnd_snoc.
    destruct (is_space d); [exact IH|]. by exists (t ++ [d]).
Qed.

Lemma trimStart_shape (s : jsstring) :
  trimStart s = [] \/ exists c t, trimStart s = c :: t /\ is_space c = false.
Proof.
  induction s as [|c s IH]; [by left|]. simpl.
  destruct (is_space c) eqn:Hc; [exact IH|]. right. by exists c, s.
Qed.

Lemma trim_idemp (s : jsstring) : trim (trim s) = trim s.
Proof.
  unfold trim. destruct (trimStart_shape s) as [->|(c & t & -> & Hc)]; [done|].
  destruct (trimEnd_keeps_head c t Hc) as [r Hr]. rewrite Hr. simpl. rewrite Hc.
  by rewrite <- Hr, trimEnd_idemp.
Qed.

Lemma truthy_trim_speakable (s : jsstring) : truthy (trim s) = true -> speakable (trim s).
Proof.
  unfold truthy, speakable. intros H%negb_true_iff%bool_decide_eq_false.
  split; [done|]. apply trim_idemp.
Qed.

Lemma terminal_not_space (c : N) : is_terminal c = true -> is_space c = false.
Proof.
  unfold is_terminal. rewrite !orb_true_iff, !N.eqb_eq. by intros [[->| ->]| ->].
Qed.

(** The shape of a match: a prefix, a terminal mark, and at most one
    white-space character. *)
Lemma sentence_match_shape (buf : jsstring) (n : nat) :
  sentence_match buf = Some n ->
  exists pre c sp, take n buf = pre ++ c :: sp /\ is_terminal c = true
                   /\ (sp = [] \/ exists d, sp = [d] /\ is_space d = true).
Proof.
  revert n; induction buf as [|c rest IH]; intros n; [done|]. simpl.
  destruct rest as [|d rest'].
  - destruct (is_terminal c) eqn:Hc; [|done]. intros [= <-].
    exists [], c, []. auto.
  - destruct (is_terminal c && is_space d) eqn:Hcd.
    + intros [= <-]. apply andb_true_iff in Hcd as [Hc Hd].
      exists [], c, [d]. simpl. rewrite take_0. eauto 6.
    + destruct (is_line_terminator c); [done|].
      destruct (sentence_match (d :: rest')) as [m|] eqn:Hm; [|done].
      intros [= <-]. destruct (IH m eq_refl) as (pre & c' & sp & Ht & Hc' & Hsp).
      exists (c :: pre), c', sp. simpl in *. by rewrite Ht.
Qed.

Lemma matched_sentence_ends (buf : jsstring) (n : nat) :
  sentence_match buf = Some n ->
  truthy (trim (take n buf)) = true /\ ends_sentence (trim (take n buf)).
Proof.
  intros (pre & c & sp & -> & Hc & Hsp)%sentence_match_shape.
  pose proof (terminal_not_space c Hc) as Hns.
  destruct (trimStart_keeps pre c sp Hns) as [l' Hl].
  assert (Ht : trim (pre ++ c :: sp) = l' ++ [c]).
  { unfold trim. rewrite Hl. destruct Hsp as [->|(d & -> & Hd)].
    - by rewrite trimEnd_snoc, Hns.
    - change (l' ++ [c; d]) with (l' ++ [c] ++ [d]).
      by rewrite app_assoc, trimEnd_snoc, Hd, trimEnd_snoc, Hns. }
  rewrite Ht. split.
  - unfold truthy. apply negb_true_iff, bool_decide_eq_false. by destruct l'.
  - exists c. by rewrite last_snoc.
Qed.

Lemma on_parsed_spoken (idx : nat) (r : reading) (p : payload) :
  spoken (on_parsed idx r p) = spoken r
  \/ exists s, spoken (on_parsed idx r p) = spoken r ++ [s]
               /\ speakable s /\ ends_sentence s /\ received [p] <> [].
Proof.
  unfold on_parsed, on_fullText. rewrite ReadingFacts.received_cons.
  destruct (p_done p); [by left|].
  destruct (p_fullText p) as [ft|]; [|by left].
  destruct (truthy ft); [|by left].
  destruct (sentence_match _) as [n|] eqn:Hm; simpl; [|by left].
  destruct (matched_sentence_ends _ _ Hm) as [Ht He]. rewrite Ht.
  right. eexists. split; [done|]. split; [by apply truthy_trim_speakable|]. done.
Qed.

Lemma payloads_spoken (idx : nat) (ps : list payload) (r : reading) :
  exists more,
    spoken (foldl (on_parsed idx) r ps) = spoken r ++ more
    /\ Forall speakable more /\ Forall ends_sentence more
    /\ length more <= length (received ps).
Proof.
  revert r; induction ps as [|p ps IH]; intros r.
  - exists []. simpl. by rewrite app_nil_r.
  - destruct (IH (on_parsed idx r p)) as (more & Hm & Hs & He & Hl).
    simpl foldl. rewrite Hm.
    assert (Hmono : length (received ps) <= length (received (p :: ps))).
    { rewrite ReadingFacts.received_cons. destruct (if p_done p then _ else _); simpl; lia. }
    destruct (on_parsed_spoken idx r p) as [->|(s & -> & Hss & Hse & Hr)].
    + exists more. repeat split; try done. lia.
    + exists (s :: more). rewrite <- app_assoc. repeat split; try done.
      * by constructor.
      * by constructor.
      * rewrite ReadingFacts.received_cons in *.
        destruct (if p_done p then _ else _); [simpl; lia|done].
Qed.

(** X4: every text handed to [playTTS] during a call of
    [handleSendMessage], whatever the response, is not empty and has no
    white space at either end. *)
Theorem spoken_texts_are_never_blank
    (JSON_parse : jsstring -> option payload) (fetch : request -> response) (st : page) :
  Forall speakable (playTTS_calls (handleSendMessage JSON_parse fetch st)).
Proof.
  unfold handleSendMessage.
  destruct (negb _ || _); [constructor|].
  destruct (fetch _) as [|[|] [[chunks fin]|]]; simpl; try constructor.
  match goal with |- context [read_loop _ ?i ?r0 _] =>
    rewrite (PageFacts.read_loop_decoded JSON_parse i chunks r0);
    destruct (payloads_spoken i (decoded JSON_parse (chunks ≫= split_lines)) r0)
      as (more & Hm & Hs & _) end.
  simpl in Hm.
  assert (Hflush : forall r : reading, Forall speakable (spoken r) -> Forall speakable (flush r)).
  { intros r Hr. unfold flush. destruct (truthy _) eqn:Ht; [|done].
    apply Forall_app. split; [done|]. constructor; [|done].
    by apply truthy_trim_speakable. }
  destruct fin; [|simpl; by rewrite Hm].
  destruct (metadata _); simpl; apply Hflush; by rewrite Hm.
Qed.

(** X5: the texts handed to [playTTS] during a call are, in order, the
    sentences cut off by the read loop, each ending in one of the marks
    [.], [!], [?], followed by at most one more text, the flush of what
    was left in the buffer. *)
Theorem spoken_sentences_end_in_a_terminal_mark
    (JSON_parse : jsstring -> option payload) (fetch : request -> response) (st : page) :
  exists body rest,
    playTTS_calls (handleSendMessage JSON_parse fetch st) = body ++ rest
    /\ Forall ends_sentence body
    /\ length rest <= 1.
Proof.
  assert (Hnone : exists body rest : list jsstring,
             [] = body ++ rest /\ Forall ends_sentence body /\ length rest <= 1).
  { exists [], []. split; [done|]. split; [constructor|simpl; lia]. }
  unfold handleSendMessage.
  destruct (negb _ || _); [exact Hnone|].
  destruct (fetch _) as [|[|] [[chunks fin]|]]; simpl; try exact Hnone.
  match goal with |- context [read_loop _ ?i ?r0 _] =>
    rewrite (PageFacts.read_loop_decoded JSON_parse i chunks r0);
    destruct (payloads_spoken i (decoded JSON_parse (chunks ≫= split_lines)) r0)
      as (more & Hm & _ & He & _) end.
  simpl in Hm.
  assert (Hflush : forall r : reading, spoken r = more ->
             exists rest, flush r = more ++ rest /\ length rest <= 1).
  { intros r Hr. unfold flush. rewrite Hr. destruct (truthy _).
    - eexists. split; [done|]. simpl. lia.
    - exists []. rewrite app_nil_r. split; [done|]. simpl. lia. }
  destruct fin.
  - destruct (metadata _); simpl;
      destruct (Hflush _ Hm) as (rest & -> & Hl); by exists more, rest.
  - simpl. exists more, []. rewrite app_nil_r, Hm. split; [done|]. split; [done|]. simpl. lia.
Qed.

(** X6: the read loop cuts off at most one sentence per event that
    carries text, however many sentences the event's text completes; so a
    turn hands at most one text more to [playTTS] than it received events
    with text, the flush included. *)
Theorem at_most_one_sentence_per_event
    (JSON_parse : jsstring -> option payload) (idx : nat) (c : list slot)
    (chunks : list jsstring) :
  length (spoken (read_loop JSON_parse idx (Segmenter.start_reading c) chunks))
  <= length (received (decoded JSON_parse (chunks ≫= split_lines)))
  /\ length (flush (read_loop JSON_parse idx (Segmenter.start_reading c) chunks))
     <= length (received (decoded JSON_parse (chunks ≫= split_lines))) + 1.
Proof.
  rewrite PageFacts.read_loop_decoded.
  destruct (payloads_spoken idx (decoded JSON_parse (chunks ≫= split_lines))
              (Segmenter.start_reading c)) as (more & Hm & _ & _ & Hl).
  simpl in Hm. split; [rewrite Hm; lia|].
  unfold flush. destruct (truthy _); rewrite ?length_app, Hm; simpl; lia.
Qed.

End SpokenFacts.

(** ** Chunks and lines *)

Module ChunkFacts.

Import Edge.

Lemma split_lines_nonempty (s : jsstring) : split_lines s <> [].
Proof.
  induction s as [|c s IH]; [done|]. simpl.
  destruct (c =? 10)%N; [done|]. by destruct (split_lines s).
Qed.

Lemma split_lines_app (a b : jsstring) :
  split_lines (a ++ 10%N :: b) = split_lines a ++ split_lines b.
Proof.
  induction a as [|c a IH]; [done|]. simpl.
  destruct (c =? 10)%N; [by rewrite IH|].
  rewrite IH. pose proof (split_lines_nonempty a).
  by destruct (split_lines a).
Qed.

(** X7: neither read loop keeps the end of a chunk to join it with the
    start of the next: two chunks in a row are read exactly as the one
    chunk made of the first, a line feed and the second. A data line cut
    in two by a chunk boundary is therefore read as two lines. *)
Theorem chunk_boundary_is_a_line_break
    (W : World) (JSON_parse : jsstring -> option Page.payload) (idx : nat)
    (r : Page.reading) (before later : list jsstring) (c1 c2 : jsstring) :
  Continue.forward W (before ++ c1 :: c2 :: later)
  = Continue.forward W (before ++ (c1 ++ 10%N :: c2) :: later)
  /\ Page.read_loop JSON_parse idx r (before ++ c1 :: c2 :: later)
     = Page.read_loop JSON_parse idx r (before ++ (c1 ++ 10%N :: c2) :: later).
Proof.
  unfold Continue.forward, Page.read_loop. rewrite !foldl_app. simpl.
  unfold Continue.on_chunk, Page.on_chunk.
  by rewrite !split_lines_app, !foldl_app.
Qed.

End ChunkFacts.

(** ** More on the two debate functions *)

Module HandlerFacts.

Import Edge Continue Turn Handlers.

Tactic Notation "members" ident(H) :=
  repeat (let E := fresh "E" in
          apply elem_of_cons in H; destruct H as [E|H]; [try discriminate E|]);
  try (apply elem_of_nil in H; contradiction).

(** X8: when one of the two keys is not set, or is the empty string,
    debate-continue and debate-start reply with the error of the missing
    keys and send no request at all. *)
Theorem missing_key_sends_nothing
    (W : World) (req : ContinueDebateRequest) (opening : Start.StartDebateRequest) :
  configured W = false ->
  serve W req = (Status500 MissingKeys, [])
  /\ Start.serve W opening = (inl MissingKeys, []).
Proof.
  unfold configured, serve, Start.serve. intros H%negb_false_iff. by rewrite H.
Qed.

Lemma missing_key_sends_nothing_witness :
  configured world_without_key = false
  /\ serve world_without_key Scenario.reply = (Status500 MissingKeys, []).
Proof.
  split; [reflexivity|].
  apply (missing_key_sends_nothing world_without_key Scenario.reply Scenario.opening).
  reflexivity.
Defined.

(** The handler, stage by stage. *)
Lemma serve_stages (W : World) (req : ContinueDebateRequest) :
  serve W req
  = if missing (GEMINI_API_KEY W) || missing (PINECONE_API_KEY W)
    then (Status500 MissingKeys, [])
    else match embedContent W (user_reply req) with
         | Resp true _ (Some embedding) =>
             match retrieve W embedding (session_id req) with
             | inl e => (Status500 e,
                         Embed (user_reply req)
                         :: retrieval_calls embedding (session_id req))
             | inr (cm, sm) =>
                 match streamGenerateContent W (prompt cm sm req) with
                 | Resp true _ body =>
                     ((stream W req embedding cm body).1,
                      (Embed (user_reply req)
                       :: retrieval_calls embedding (session_id req))
                      ++ [Generate (prompt cm sm req)]
                      ++ (stream W req embedding cm body).2)
                 | Resp false errorText _ =>
                     (Status500 (LLMFailed errorText),
                      (Embed (user_reply req)
                       :: retrieval_calls embedding (session_id req))
                      ++ [Generate (prompt cm sm req)])
                 | Throws =>
                     (Status500 Thrown,
                      (Embed (user_reply req)
                       :: retrieval_calls embedding (session_id req))
                      ++ [Generate (prompt cm sm req)])
                 end
             end
         | Resp false errorText _ =>
             (Status500 (EmbeddingFailed errorText), [Embed (user_reply req)])
         | _ => (Status500 Thrown, [Embed (user_reply req)])
         end.
Proof.
  unfold serve. destruct (missing _ || missing _); [done|].
  destruct (embedContent W (user_reply req)) as [|[|] t [embedding|]]; try done.
  destruct (retrieve W embedding (session_id req)) as [e|[cm sm]]; [done|].
  destruct (streamGenerateContent W (prompt cm sm req)) as [|[|] t' body]; try done.
  destruct (stream W req embedding cm body) as [res more].
  unfold retrieval_calls. reflexivity.
Qed.

(** What [stream] sends, by how the stream and the second embedding end. *)
Lemma stream_cases (W : World) (req : ContinueDebateRequest) (embedding : vector)
    (cm : list match_t) (body : option (list jsstring * Page.ending)) :
  (exists chunks aiEmbedding,
      body = Some (chunks, Page.Eof)
      /\ stream W req embedding cm body
         = (EventStream (enqueued (forward W chunks)
                         ++ [Done (fullAnswer (forward W chunks)) (imap to_source cm)
                               (turn_index req + 1)]) Closed,
            [Upsert (user_upsert W req embedding); Embed (fullAnswer (forward W chunks));
             Upsert (ai_upsert W req (fullAnswer (forward W chunks)) aiEmbedding)]))
  \/ (exists chunks,
         body = Some (chunks, Page.Eof)
         /\ readable (embedContent W (fullAnswer (forward W chunks))) = false
         /\ stream W req embedding cm body
            = (EventStream (enqueued (forward W chunks)
                            ++ [Done (fullAnswer (forward W chunks)) (imap to_source cm)
                                  (turn_index req + 1)]) Errored,
               [Upsert (user_upsert W req embedding);
                Embed (fullAnswer (forward W chunks))]))
  \/ (exists chunks,
         body = Some (chunks, Page.ReadFails)
         /\ stream W req embedding cm body
            = (EventStream (enqueued (forward W chunks)) Errored, []))
  \/ (body = None /\ stream W req embedding cm body = (EventStream [] Closed, [])).
Proof.
  unfold stream. destruct body as [[chunks [|]]|].
  - destruct (embedContent W (fullAnswer (forward W chunks))) as [|ok t [ai|]] eqn:He.
    + right. left. exists chunks. by rewrite He.
    + left. by exists chunks, ai.
    + right. left. exists chunks. by rewrite He.
  - right. right. left. by exists chunks.
  - by repeat right.
Qed.

Lemma forward_has_no_done (W : World) (chunks : list jsstring) :
  Forall (fun e => exists t ft, e = Delta t ft) (enqueued (forward W chunks)).
Proof.
  unfold forward.
  assert (H0 : Forall (fun e => exists t ft, e = Delta t ft)
                 (enqueued {| fullAnswer := []; enqueued := [] |})) by constructor.
  revert H0. generalize {| fullAnswer := []; enqueued := [] |} as f.
  induction chunks as [|c cs IH]; intros f Hf; [done|].
  simpl. apply IH. unfold on_chunk. generalize (split_lines c) as ls.
  intros ls; revert f Hf; induction ls as [|l ls IHl]; intros f Hf; [done|].
  simpl. apply IHl. unfold on_line. repeat case_match; try done.
  simpl. apply Forall_app. split; [done|]. constructor; [eauto|done].
Qed.

(** X9: debate-continue writes to the session memory only for a turn
    whose answer streamed to its end: if a vector was sent for upsert,
    then the embedding, the retrieval and the generation succeeded, the
    terminal event was written, and the vector went to the namespace named
    by the request's session identifier. *)
Theorem session_memory_is_written_only_after_a_full_stream
    (W : World) (req : ContinueDebateRequest) (v : upsert) :
  Upsert v ∈ (serve W req).2 ->
  embedding_ok W req && retrieval_ok W req && generation_ok W req = true
  /\ (exists ft rs n, last (events_of (serve W req).1) = Some (Done ft rs n))
  /\ up_namespace v = session_id req.
Proof.
  rewrite serve_stages. unfold embedding_ok, retrieval_ok, generation_ok, retrieval_calls.
  destruct (missing _ || missing _); [intros H; members H|].
  destruct (embedContent W (user_reply req)) as [|[|] t [embedding|]];
    try solve [intros H; members H].
  destruct (retrieve W embedding (session_id req)) as [e|[cm sm]]; [intros H; members H|].
  destruct (streamGenerateContent W (prompt cm sm req)) as [|[|] t' body];
    try solve [intros H; simpl in H; members H].
  destruct (stream_cases W req embedding cm body)
    as [(chunks & ai & -> & ->)|[(chunks & -> & _ & ->)|[(chunks & -> & ->)|[-> ->]]]];
    simpl; intros H; members H; simplify_eq;
    (split; [done|]; split; [rewrite last_snoc; eauto|done]).
Qed.

Lemma session_memory_is_written_only_after_a_full_stream_witness :
  generation_ok Scenario.world Scenario.reply = true
  /\ up_namespace (user_upsert Scenario.world Scenario.reply [21 # 1]) = u "s1".
Proof.
  split; [vm_compute; reflexivity|].
  apply (session_memory_is_written_only_after_a_full_stream Scenario.world Scenario.reply
           (user_upsert Scenario.world Scenario.reply [21 # 1])).
  apply list_elem_of_In. vm_compute. do 4 right. left. reflexivity.
Defined.

(** X10: when debate-continue has streamed the whole answer and the
    embedding of that answer cannot be read, the user turn has been sent
    for upsert and the assistant turn has not, and the response stream,
    which already carries the terminal event, ends in an error; the page
    then treats the turn as failed and puts the conversation back to what
    it was before the turn. *)
Theorem failed_answer_embedding_discards_the_delivered_turn
    (W : World) (req : ContinueDebateRequest) (events : list sse) (calls : list call)
    (answer : jsstring) (rs : list Page.Source) (n : nat)
    (JSON_parse : jsstring -> option Page.payload)
    (chunks_of : list sse -> list jsstring) (error_body : error -> jsstring)
    (st : Page.page) :
  serve W req = (EventStream events Errored, calls) ->
  last events = Some (Done answer rs n) ->
  sendable st = true ->
  readable (embedContent W answer) = false
  /\ (exists embedding, upserts_of calls = [user_upsert W req embedding])
  /\ Page.conversation
       (Page.after (Page.handleSendMessage JSON_parse
                      (fun _ => deliver chunks_of error_body (serve W req).1) st))
     = Page.conversation st
  /\ Page.failed (Page.handleSendMessage JSON_parse
                    (fun _ => deliver chunks_of error_body (serve W req).1) st)
     = true.
Proof.
  intros Hserve Hlast Hsend.
  assert (Hpage : fails (deliver chunks_of error_body (serve W req).1) = true)
    by (by rewrite Hserve).
  destruct (PageFacts.failed_response_restores_conversation JSON_parse
              (fun _ => deliver chunks_of error_body (serve W req).1) st Hsend Hpage)
    as (Hc & Hf & _).
  cut (readable (embedContent W answer) = false
       /\ exists embedding, upserts_of calls = [user_upsert W req embedding]).
  { intros [? ?]. done. }
  clear Hpage Hc Hf. revert Hserve. rewrite serve_stages.
  destruct (missing _ || missing _); [done|].
  destruct (embedContent W (user_reply req)) as [|[|] t [embedding|]]; try done.
  destruct (retrieve W embedding (session_id req)) as [e|[cm sm]]; [done|].
  destruct (streamGenerateContent W (prompt cm sm req)) as [|[|] t' body]; try done.
  destruct (stream_cases W req embedding cm body)
    as [(chunks & ai & -> & ->)|[(chunks & -> & Hr & ->)|[(chunks & -> & ->)|[-> ->]]]];
    simpl; intros [= <- <-]; try done.
  - rewrite last_snoc in Hlast. simplify_eq. split; [done|]. by exists embedding.
  - exfalso. pose proof (forward_has_no_done W chunks) as Hall.
    apply last_Some in Hlast as [l' Hl]. rewrite Hl in Hall.
    apply Forall_app in Hall as [_ Hd].
    inversion Hd as [|? ? (t0 & ft0 & Heq) ?]. discriminate Heq.
Qed.

Lemma failed_answer_embedding_discards_the_delivered_turn_witness :
  last (events_of (serve world_failing_answer_embedding Scenario.reply).1)
  = Some (Done (u "The claim is false. Evidence [Source 1] shows otherwise.")
            (imap to_source Scenario.corpus) 2)
  /\ Page.failed (Page.handleSendMessage Scenario.page_decode
                    (fun _ => deliver Scenario.one_chunk_per_event Scenario.error_text
                                (serve world_failing_answer_embedding Scenario.reply).1)
                    Scenario.page_before)
     = true.
Proof.
  split; [vm_compute; reflexivity|].
  apply (failed_answer_embedding_discards_the_delivered_turn
           world_failing_answer_embedding Scenario.reply
           (events_of (serve world_failing_answer_embedding Scenario.reply).1)
           (serve world_failing_answer_embedding Scenario.reply).2
           (u "The claim is false. Evidence [Source 1] shows otherwise.")
           (imap to_source Scenario.corpus) 2
           Scenario.page_decode Scenario.one_chunk_per_event Scenario.error_text
           Scenario.page_before);
    vm_compute; reflexivity.
Defined.

Lemma chained_before_done (prev : jsstring) (events : list sse)
    (ft : jsstring) (rs : list Page.Source) (n : nat) :
  chained prev (events ++ [Done ft rs n]) ->
  ft = prev ++ mjoin (delta_texts events).
Proof.
  revert prev; induction events as [|e events IH]; intros prev; simpl.
  - intros [-> _]. by rewrite app_nil_r.
  - destruct e as [t ft'|ft' rs' n'].
    + intros (-> & _ & Hc). rewrite (IH _ Hc).
      change (delta_texts (Delta t (prev ++ t) :: events)) with (t :: delta_texts events).
      simpl. by rewrite app_assoc.
    + intros (-> & Hc). by rewrite (IH _ Hc).
Qed.

(** X11: in a response stream of debate-continue that reaches its
    terminal event, the [fullText] of that event is the concatenation of
    the texts of all incremental events before it: nothing the function
    forwarded is missing from the final answer and nothing else is in it. *)
Theorem terminal_event_carries_the_forwarded_texts
    (W : World) (req : ContinueDebateRequest)
    (ft : jsstring) (rs : list Page.Source) (n : nat) :
  last (events_of (serve W req).1) = Some (Done ft rs n) ->
  ft = mjoin (delta_texts (events_of (serve W req).1)).
Proof.
  intros Hlast. pose proof (StreamFacts.serve_chained W req) as Hc.
  apply last_Some in Hlast as [l' Hl]. rewrite Hl in *.
  rewrite (chained_before_done [] l' ft rs n Hc).
  unfold delta_texts. rewrite omap_app. simpl. by rewrite app_nil_r.
Qed.

Lemma terminal_event_carries_the_forwarded_texts_witness :
  u "The claim is false. Evidence [Source 1] shows otherwise."
  = mjoin (delta_texts (events_of (serve Scenario.world Scenario.reply).1)).
Proof.
  apply (terminal_event_carries_the_forwarded_texts Scenario.world Scenario.reply
           (u "The claim is false. Evidence [Source 1] shows otherwise.")
           (imap to_source Scenario.corpus) 2).
  vm_compute. reflexivity.
Defined.

Lemma source_numbers (ms : list match_t) :
  Page.source_number <$> imap to_source ms = seq 1 (length ms).
Proof.
  rewrite fmap_imap.
  assert (H : forall j (l : list match_t), imap (fun n (_ : match_t) => n + j) l = seq j (length l)).
  { intros j l; revert j; induction l as [|m l IH]; intros j; [done|].
    rewrite imap_cons. simpl. f_equal. rewrite <- (IH (S j)).
    apply imap_ext. intros i x _. simpl. lia. }
  rewrite <- H. apply imap_ext. done.
Qed.

Lemma source_lines_cited (ms : list match_t) :
  imap source_line ms = cite <$> imap to_source ms.
Proof. rewrite fmap_imap. apply imap_ext. done. Qed.

Lemma source_ids (ms : list match_t) : Page.id <$> imap to_source ms = m_id <$> ms.
Proof. rewrite fmap_imap, <- imap_const. apply imap_ext. done. Qed.

(** X12: the sources a terminal event of debate-continue sends to the
    page are those the prompt of that turn was built from, in the same
    order and with the same identifiers; they are numbered 1, 2, ... and
    the line of the prompt's corpus context for each is [Source k]
    with that number, followed by the summary the page receives. *)
Theorem sources_are_numbered_as_the_prompt_cites_them
    (W : World) (req : ContinueDebateRequest) (events : list sse) (fin : closing)
    (calls : list call) (ft : jsstring) (rs : list Page.Source) (n : nat) :
  serve W req = (EventStream events fin, calls) ->
  last events = Some (Done ft rs n) ->
  Page.source_number <$> rs = seq 1 (length rs)
  /\ exists corpusMatches sessionMatches,
       Generate (prompt corpusMatches sessionMatches req) ∈ calls
       /\ rs = imap to_source corpusMatches
       /\ Page.id <$> rs = m_id <$> corpusMatches
       /\ corpusContext corpusMatches = join (u "

") (cite <$> rs).
Proof.
  rewrite serve_stages.
  destruct (missing _ || missing _); [done|].
  destruct (embedContent W (user_reply req)) as [|[|] t [embedding|]]; try done.
  destruct (retrieve W embedding (session_id req)) as [e|[cm sm]]; [done|].
  destruct (streamGenerateContent W (prompt cm sm req)) as [|[|] t' body]; try done.
  assert (Hgen : forall more,
             Generate (prompt cm sm req)
             ∈ (Embed (user_reply req) :: retrieval_calls embedding (session_id req))
               ++ [Generate (prompt cm sm req)] ++ more).
  { intros more. apply elem_of_app. right. apply elem_of_cons. by left. }
  destruct (stream_cases W req embedding cm body)
    as [(chunks & ai & -> & ->)|[(chunks & -> & Hr & ->)|[(chunks & -> & ->)|[-> ->]]]];
    simpl fst; simpl snd; intros [= <- <- <-] Hlast.
  - rewrite last_snoc in Hlast. simplify_eq.
    split; [by rewrite source_numbers, length_imap|].
    exists cm, sm. split; [apply Hgen|]. split; [done|]. split; [apply source_ids|].
    unfold corpusContext. by rewrite source_lines_cited.
  - rewrite last_snoc in Hlast. simplify_eq.
    split; [by rewrite source_numbers, length_imap|].
    exists cm, sm. split; [apply Hgen|]. split; [done|]. split; [apply source_ids|].
    unfold corpusContext. by rewrite source_lines_cited.
  - exfalso. pose proof (forward_has_no_done W chunks) as Hall.
    apply last_Some in Hlast as [l' Hl]. rewrite Hl in Hall.
    apply Forall_app in Hall as [_ Hd].
    inversion Hd as [|? ? (t0 & ft0 & Heq) ?]. discriminate Heq.
  - done.
Qed.

Lemma sources_are_numbered_as_the_prompt_cites_them_witness :
  Page.source_number <$> imap to_source Scenario.corpus = [1; 2]
  /\ corpusContext Scenario.corpus
     = u "[Source 1]: Coverage lowers mortality.

[Source 2]: Costs rise with age.".
Proof.
  destruct (sources_are_numbered_as_the_prompt_cites_them
              Scenario.world Scenario.reply
              (events_of (serve Scenario.world Scenario.reply).1) Closed
              (serve Scenario.world Scenario.reply).2
              (u "The claim is false. Evidence [Source 1] shows otherwise.")
              (imap to_source Scenario.corpus) 2)
    as (Hnum & _); [vm_compute; reflexivity | vm_compute; reflexivity|].
  split; [exact Hnum|]. vm_compute. reflexivity.
Defined.

End HandlerFacts.

(** ** More on debate-start *)

Module StartFacts.

Import Edge Handlers.

(** X13: when debate-start replies with status 200, it has sent, in this
    order, one embedding of the opening argument, one query for the top
    ten of the global namespace, the generation, the upsert of the user
    turn at index 0 with that embedding and the session's settings, one
    embedding of the answer, and the upsert of the assistant turn at
    index 1. Both vectors go to the namespace of the session, which is the
    identifier of the request when it has a non-empty one and a fresh
    identifier otherwise; the reply names that session, carries a
    non-empty answer, and announces turn index 1. *)
Theorem start_writes_the_opening_exchange
    (W : World) (req : Start.StartDebateRequest) (reply : Start.started)
    (calls : list call) :
  Start.serve W req = (inr reply, calls) ->
  let session := match Start.session_id req with
                 | Some s => if truthy s then s else randomUUID W
                 | None => randomUUID W
                 end in
  exists embedding aiEmbedding matches,
    calls =
      [Embed (Start.opening_argument req);
       Query {| q_vector := embedding; topK := 10; includeMetadata := true;
                namespace := [] |};
       Generate (Start.prompt matches req);
       Upsert {| up_id := session ++ u "::turn::" ++ show 0;
                 up_values := embedding;
                 up_role := u "user";
                 up_text := Start.opening_argument req;
                 up_turn_index := 0;
                 up_timestamp := toISOString W 0;
                 up_extra := Some (Start.category req, Start.debate_experience req,
                                   Start.ai_level req);
                 up_namespace := session |};
       Embed (Start.answer reply);
       Upsert {| up_id := session ++ u "::turn::" ++ show 1;
                 up_values := aiEmbedding;
                 up_role := u "assistant";
                 up_text := Start.answer reply;
                 up_turn_index := 1;
                 up_timestamp := toISOString W 1;
                 up_extra := None;
                 up_namespace := session |}]
    /\ Start.r_session_id reply = session
    /\ Start.r_turn_index reply = 1
    /\ Start.answer reply <> []
    /\ Start.retrieved reply = imap to_source matches
    /\ Page.source_number <$> Start.retrieved reply = seq 1 (length matches).
Proof.
  intros Hs session. unfold Start.serve in Hs.
  repeat case_match; simplify_eq.
  match goal with
  | H1 : embedContent W (Start.opening_argument req) = Resp _ _ (Some ?e),
    H2 : negb (vectors_upsert W (Start.ai_upsert W req ?ans ?ai)) = false,
    H3 : pinecone_query W _ = Resp _ _ (Some ?o),
    H4 : negb (truthy ?ans) = false |- _ =>
      exists e, ai, (default [] o); apply negb_false_iff in H4
  end.
  simpl. repeat split; try done.
  - unfold truthy in *. match goal with H : negb (bool_decide _) = true |- _ =>
      by apply negb_true_iff, bool_decide_eq_false in H end.
  - apply HandlerFacts.source_numbers.
Qed.

Lemma start_writes_the_opening_exchange_witness :
  Start.r_session_id Scenario.opened = u "s1"
  /\ Start.r_turn_index Scenario.opened = 1.
Proof.
  destruct (start_writes_the_opening_exchange Scenario.world Scenario.opening
              Scenario.opened (Start.serve Scenario.world Scenario.opening).2)
    as (e & ai & ms & _ & Hsid & Hidx & _); [vm_compute; reflexivity|].
  split; [exact Hsid | exact Hidx].
Defined.

(** X14: when debate-start replies with one of the errors it raises
    itself (missing keys, failed embedding, failed query, failed
    generation, an answer without text), it has sent nothing for upsert. *)
Theorem start_error_reply_writes_nothing
    (W : World) (req : Start.StartDebateRequest) (e : error) (calls : list call) :
  Start.serve W req = (inl e, calls) ->
  e <> Thrown ->
  upserts_of calls = [].
Proof.
  unfold Start.serve. intros Hs He.
  repeat case_match; simplify_eq; done.
Qed.

Lemma start_error_reply_writes_nothing_witness :
  (Start.serve world_with_mute_model Scenario.opening).1 = inl InvalidModelResponse
  /\ upserts_of (Start.serve world_with_mute_model Scenario.opening).2 = [].
Proof.
  split; [vm_compute; reflexivity|].
  apply (start_error_reply_writes_nothing world_with_mute_model Scenario.opening
           InvalidModelResponse);
    [vm_compute; reflexivity | discriminate].
Defined.

End StartFacts.

(** ** The speech-to-text function *)

Module SttFacts.

Import Stt.

(** X15: the function posts to the transcription service at most once,
    and only when the request carries non-empty audio, the key is set
    and the audio decodes; the file posted is the decoded audio, with the
    fixed settings of the form. *)
Theorem service_is_called_only_with_audio_and_key
    (W : World) (audio : option jsstring) (f : form) :
  f ∈ (serve W audio).2 ->
  exists a binaryAudio,
    audio = Some a /\ a <> []
    /\ Edge.missing (ELEVENLABS_API_KEY W) = false
    /\ atob W a = Some binaryAudio
    /\ (serve W audio).2 = [f]
    /\ f = {| file := binaryAudio; file_type := u "audio/webm"; filename := u "audio.webm";
              model_id := u "scribe_v1"; tag_audio_events := u "true";
              language_code := u "eng"; diarize := u "true" |}.
Proof.
  unfold serve. destruct audio as [a|]; [|by intros ?%elem_of_nil].
  destruct (truthy a) eqn:Ha; simpl; [|by intros ?%elem_of_nil].
  destruct (Edge.missing _) eqn:Hk; [by intros ?%elem_of_nil|].
  destruct (atob W a) as [b|] eqn:Hb; [|by intros ?%elem_of_nil].
  intros Hin. exists a, b.
  assert (Hne : a <> []).
  { unfold truthy in Ha. by apply negb_true_iff, bool_decide_eq_false in Ha. }
  assert (Hf : forall f', f' ∈ [formData b] -> f' = formData b)
    by (by intros ? ->%list_elem_of_singleton).
  destruct (speech_to_text W (formData b)) as [|status [r|]]; simpl in *;
    try destruct (negb (ok status)); simpl in *;
    by rewrite (Hf f Hin).
Qed.

Lemma service_is_called_only_with_audio_and_key_witness :
  (serve Speech.world (Some (u "UklGRg"))).2 = [formData (u "UklGRg")].
Proof.
  destruct (service_is_called_only_with_audio_and_key Speech.world (Some (u "UklGRg"))
              (formData (u "UklGRg")))
    as (a & b & _ & _ & _ & _ & Hposted & _).
  { apply list_elem_of_singleton. reflexivity. }
  exact Hposted.
Defined.

Lemma filter_is_word_insert (ws1 ws2 : list word) (e : word) :
  is_word e = false ->
  List.filter is_word (ws1 ++ e :: ws2) = List.filter is_word (ws1 ++ ws2).
Proof.
  intros He. rewrite !List.filter_app. simpl. by rewrite He.
Qed.

(** X16: when the service answers with a list of words, the transcript
    is made of the entries of type [word] only, in order, separated by
    single spaces: an entry of any other type (spacing, audio event)
    changes nothing, and the [text] of the answer is not read, so that a
    list without words gives the empty transcript; when all the other
    entries are words, the transcript is their texts joined by spaces. *)
Theorem transcript_is_made_of_the_words_only
    (ws1 ws2 : list word) (e : word) (t t' : option jsstring) :
  w_type e <> u "word" ->
  transcribedText {| words := Some (ws1 ++ e :: ws2); r_text := t |}
  = transcribedText {| words := Some (ws1 ++ ws2); r_text := t' |}
  /\ transcribedText {| words := Some [e]; r_text := t |} = []
  /\ transcribedText {| words := Some []; r_text := t |} = []
  /\ (Forall (fun w => w_type w = u "word") (ws1 ++ ws2) ->
      transcribedText {| words := Some (ws1 ++ e :: ws2); r_text := t |}
      = join (u " ") (w_text <$> ws1 ++ ws2)).
Proof.
  intros He.
  assert (Hw : is_word e = false) by (by apply bool_decide_eq_false).
  unfold transcribedText; simpl. rewrite filter_is_word_insert by done.
  rewrite Hw. repeat split. intros Hall. do 2 f_equal.
  induction Hall as [|w ws Hword _ IH]; [done|].
  simpl. unfold is_word at 1. by rewrite (bool_decide_eq_true_2 _ Hword), IH.
Qed.

Lemma transcript_is_made_of_the_words_only_witness :
  transcribedText Speech.heard = u "Costs matter".
Proof.
  destruct (transcript_is_made_of_the_words_only
              [{| w_type := u "word"; w_text := u "Costs" |}]
              [{| w_type := u "word"; w_text := u "matter" |}]
              {| w_type := u "spacing"; w_text := u " " |}
              (Some (u "Costs matter")) None) as (H & _); [discriminate|].
  etrans; [exact H|]. reflexivity.
Defined.

End SttFacts.

(** ** The sources panel and the source groups of the page *)

Module PanelFacts.

Import Page Turn.

(** X17: the panel keeps the expanded cards by source id. Toggling an id
    flips every card that carries it, whatever its group or number, and
    leaves the other cards alone; toggling it again restores the set. *)
Theorem toggle_flips_every_card_with_the_id
    (sourceId : jsstring) (expandedSources : gset jsstring) (source : Source) :
  SourcesPanel.isExpanded (SourcesPanel.toggleSource sourceId expandedSources) source
  = (if bool_decide (id source = sourceId)
     then negb (SourcesPanel.isExpanded expandedSources source)
     else SourcesPanel.isExpanded expandedSources source)
  /\ SourcesPanel.toggleSource sourceId (SourcesPanel.toggleSource sourceId expandedSources)
     = expandedSources.
Proof.
  unfold SourcesPanel.isExpanded, SourcesPanel.toggleSource. split.
  - destruct (decide (sourceId ∈ expandedSources)) as [Hin|Hin];
      destruct (decide (id source = sourceId)) as [Hid|Hid];
      rewrite ?(bool_decide_eq_true_2 _ Hid), ?(bool_decide_eq_false_2 _ Hid).
    + rewrite <- Hid in Hin. rewrite (bool_decide_eq_true_2 _ Hin). simpl.
      apply bool_decide_eq_false_2.
      rewrite elem_of_difference, elem_of_singleton. tauto.
    + apply bool_decide_ext.
      rewrite elem_of_difference, elem_of_singleton. tauto.
    + rewrite <- Hid in Hin. rewrite (bool_decide_eq_false_2 _ Hin). simpl.
      apply bool_decide_eq_true_2.
      rewrite elem_of_union, elem_of_singleton. tauto.
    + apply bool_decide_ext.
      rewrite elem_of_union, elem_of_singleton. tauto.
  - destruct (decide (sourceId ∈ expandedSources)) as [Hin|Hin].
    + rewrite decide_False
        by (rewrite elem_of_difference, elem_of_singleton; tauto).
      apply set_eq. intros x.
      rewrite elem_of_union, elem_of_difference, elem_of_singleton.
      destruct (decide (x = sourceId)) as [->|]; tauto.
    + rewrite decide_True
        by (rewrite elem_of_union, elem_of_singleton; tauto).
      apply set_eq. intros x.
      rewrite elem_of_difference, elem_of_union, elem_of_singleton.
      destruct (decide (x = sourceId)) as [->|]; tauto.
Qed.

Lemma totalSources_from (n : nat) (groups : list SourceGroup) :
  foldl (fun sum group => sum + length (sources group)) n groups
  = n + SourcesPanel.totalSources groups.
Proof.
  unfold SourcesPanel.totalSources. revert n.
  induction groups as [|g gs IH]; intros n; simpl; [lia|].
  rewrite (IH (n + _)), (IH (length _)). lia.
Qed.

Lemma totalSources_app (gs1 gs2 : list SourceGroup) :
  SourcesPanel.totalSources (gs1 ++ gs2)
  = SourcesPanel.totalSources gs1 + SourcesPanel.totalSources gs2.
Proof.
  unfold SourcesPanel.totalSources at 1. rewrite foldl_app, totalSources_from.
  reflexivity.
Qed.

Lemma metadata_is_last_terminal (idx : nat) (ps : list payload) (r : reading) :
  metadata (foldl (on_parsed idx) r ps)
  = match last (List.filter p_done ps) with
    | Some m => Some m
    | None => metadata r
    end.
Proof.
  induction ps as [|p ps IH] using rev_ind; [done|].
  rewrite foldl_app, List.filter_app. simpl. unfold on_parsed at 1.
  destruct (p_done p) eqn:Hp; simpl.
  - by rewrite last_snoc.
  - rewrite app_nil_r, <- IH.
    destruct (p_fullText p) as [ft|]; [|done].
    destruct (truthy ft); [|done].
    unfold on_fullText. by destruct (sentence_match _).
Qed.

(** X18: after a turn that ran to its end, the source groups are those
    of before the turn followed by one group for the last terminal event
    read from the stream, keyed by the turn index that event announced,
    which also becomes the turn index of the page; without a terminal
    event the groups and the turn index stay. The number of sources the
    panel shows grows by the number of sources of that event. *)
Theorem last_terminal_event_adds_the_source_group
    (JSON_parse : jsstring -> option payload) (fetch : request -> response) (st : page)
    (chunks : list jsstring) :
  sendable st = true ->
  fetch {| session_id := sessionId st; user_reply := userInput st;
           turn_index := turnIndex st; category := topic st;
           debate_experience := debateExperience st; ai_level := aiLevel st;
           conversation_history := conversation st |}
  = Response true (Some (chunks, Eof)) ->
  let out := handleSendMessage JSON_parse fetch st in
  let terminal := last (List.filter p_done (decoded JSON_parse (chunks ≫= split_lines))) in
  sourceGroups (after out)
  = sourceGroups st
    ++ match terminal with
       | Some m => [{| sg_turnIndex := p_turn_index m; sources := p_retrieved m |}]
       | None => []
       end
  /\ turnIndex (after out) = from_option p_turn_index (turnIndex st) terminal
  /\ SourcesPanel.totalSources (sourceGroups (after out))
     = SourcesPanel.totalSources (sourceGroups st)
       + from_option (fun m => length (p_retrieved m)) 0 terminal.
Proof.
  unfold sendable, handleSendMessage. intros [Hin Hload]%andb_true_iff Hf.
  rewrite Hin. apply negb_true_iff in Hload. rewrite Hload. simpl.
  rewrite Hf, PageFacts.read_loop_decoded, metadata_is_last_terminal. simpl.
  destruct (last _) as [m|]; simpl.
  - rewrite totalSources_app. by repeat split.
  - rewrite app_nil_r. repeat split. lia.
Qed.

Lemma last_terminal_event_adds_the_source_group_witness :
  let out := handleSendMessage Pages.decode_with_sources Pages.answers_once
               Scenario.page_before in
  turnIndex (after out) = 2
  /\ SourcesPanel.totalSources (sourceGroups (after out)) = 2.
Proof.
  destruct (last_terminal_event_adds_the_source_group Pages.decode_with_sources
              Pages.answers_once Scenario.page_before
              [u "data: {Costs fall.

"; u "data: !

"])
    as (_ & Hi & Ht); [vm_compute; reflexivity | reflexivity |].
  split; [etrans; [exact Hi|] | etrans; [exact Ht|]]; vm_compute; reflexivity.
Defined.

End PanelFacts.

(** ** From the setup page to the results page *)

Module PagesFacts.

Import Edge.

Lemma started_reply (W : World) (req : Start.StartDebateRequest) (data : Start.started) :
  (Start.serve W req).1 = inr data ->
  Start.r_session_id data = Start.currentSessionId W req
  /\ Start.r_turn_index data = 1
  /\ Start.answer data <> []
  /\ Page.source_number <$> Start.retrieved data = seq 1 (length (Start.retrieved data)).
Proof.
  destruct (Start.serve W req) as [reply calls] eqn:Hs. simpl. intros ->.
  unfold Start.serve in Hs.
  repeat case_match; simplify_eq. simpl.
  repeat split.
  - unfold truthy in *. match goal with H : negb (negb (bool_decide _)) = false |- _ =>
      by apply negb_false_iff, negb_true_iff, bool_decide_eq_false in H end.
  - rewrite HandlerFacts.source_numbers. by rewrite length_imap.
Qed.

Lemma label_of_slider (labels : list jsstring) (v : nat) :
  length labels = 4 -> v <= 3 -> exists l, labels !! v = Some l /\ l ∈ labels.
Proof.
  intros Hl Hv. destruct (lookup_lt_is_Some_2 labels v) as [l Hlk]; [lia|].
  exists l. split; [done|]. by eapply list_elem_of_lookup_2.
Qed.

(** X19: when the setup page, with its sliders in range and debate-start
    behind it, navigates to the debate page, a category was chosen and
    the trimmed opening argument has at least 20 characters; the debate
    page then opens on the untrimmed opening argument followed by the
    non-empty answer, with one source group keyed by 1 whose sources are
    numbered from 1, under a fresh session identifier (the page sends
    none), at turn index 1, with the category and the labels of the two
    sliders. *)
Theorem setup_opens_the_debate_on_the_first_exchange
    (W : World) (thrown : jsstring) (st : Setup.setup) (s : Nav.state) :
  Setup.userExperience st <= 3 ->
  Setup.aiLevel st <= 3 ->
  Setup.navigated (Setup.handleStartDebate (Pages.start_backend W thrown) st) = Some s ->
  let page := Nav.debate_page (Some s) in
  exists answer sources,
    Setup.selectedCategory st <> []
    /\ 20 <= length (trim (Setup.openingArgument st))
    /\ answer <> []
    /\ Page.conversation page
       = [Some {| Page.msg_role := Page.user; Page.content := Setup.openingArgument st |};
          Some {| Page.msg_role := Page.assistant; Page.content := answer |}]
    /\ Page.sourceGroups page = [{| Page.sg_turnIndex := 1; Page.sources := sources |}]
    /\ Page.source_number <$> sources = seq 1 (length sources)
    /\ Page.sessionId page = randomUUID W
    /\ Page.turnIndex page = 1
    /\ Page.topic page = Setup.selectedCategory st
    /\ Setup.EXPERIENCE_LABELS !! Setup.userExperience st = Some (Page.debateExperience page)
    /\ Setup.AI_LEVEL_LABELS !! Setup.aiLevel st = Some (Page.aiLevel page)
    /\ Page.userInput page = []
    /\ Page.isLoading page = false.
Proof.
  intros He Ha. unfold Setup.handleStartDebate.
  destruct (truthy (Setup.selectedCategory st)) eqn:Hc; simpl; [|done].
  destruct (length (trim (Setup.openingArgument st)) <? 20) eqn:Hlen; [done|].
  destruct (label_of_slider Setup.EXPERIENCE_LABELS (Setup.userExperience st) eq_refl He)
    as (le & Hle & _).
  destruct (label_of_slider Setup.AI_LEVEL_LABELS (Setup.aiLevel st) eq_refl Ha)
    as (la & Hla & _).
  rewrite Hle, Hla. unfold Pages.start_backend, Setup.received. simpl.
  match goal with |- context [Start.serve W ?r] => set (req := r) end.
  destruct (Start.serve W req).1 as [e|data] eqn:Hs.
  { destruct e as [| | [?|] | | |]; simpl; done. }
  simpl. intros [= <-]. simpl.
  destruct (started_reply W req data Hs) as (Hsid & Hidx & Hans & Hnum).
  exists (Start.answer data), (Start.retrieved data).
  rewrite Hidx, Hsid.
  repeat split; try done.
  - unfold truthy in Hc. by apply negb_true_iff, bool_decide_eq_false in Hc.
  - apply Nat.ltb_ge in Hlen. lia.
Qed.

Lemma setup_opens_the_debate_on_the_first_exchange_witness :
  exists s,
    Setup.navigated (Setup.handleStartDebate (Pages.start_backend Scenario.world []) Pages.filled)
    = Some s
    /\ Page.sessionId (Nav.debate_page (Some s)) = u "s1"
    /\ Page.turnIndex (Nav.debate_page (Some s)) = 1.
Proof.
  eexists. split; [vm_compute; reflexivity|].
  edestruct (setup_opens_the_debate_on_the_first_exchange Scenario.world [] Pages.filled)
    as (answer & sources & _ & _ & _ & _ & _ & _ & Hsid & Hidx & _);
    [simpl; lia | simpl; lia | vm_compute; reflexivity |].
  split; [exact Hsid | exact Hidx].
Defined.

(** X20: a request leaves the setup page only when a category is chosen
    and the trimmed opening argument has at least 20 characters, and it
    carries the argument as typed; and the page navigates only on a
    response that is ok and readable. Otherwise it stays, with a notice:
    the missing category is reported before the short argument. *)
Theorem setup_sends_only_a_complete_form
    (fetch : Setup.request -> Setup.response) (st : Setup.setup) :
  let out := Setup.handleStartDebate fetch st in
  (Setup.sent out = None
   <-> Setup.selectedCategory st = [] \/ length (trim (Setup.openingArgument st)) < 20)
  /\ (forall body, Setup.sent out = Some body ->
        Setup.category body = Setup.selectedCategory st
        /\ Setup.opening_argument body = Setup.openingArgument st
        /\ (Setup.navigated out <> None <-> exists data, fetch body = Setup.Ok (Some data)))
  /\ (Setup.navigated out = None <-> Setup.shown out <> None)
  /\ (Setup.selectedCategory st = [] -> Setup.shown out = Some Setup.SelectCategory).
Proof.
  unfold Setup.handleStartDebate, truthy.
  case_bool_decide as Hc; simpl.
  { repeat split; try done; by left. }
  destruct (length (trim (Setup.openingArgument st)) <? 20) eqn:Hlen; simpl.
  { apply Nat.ltb_lt in Hlen. repeat split; try done. by right. }
  apply Nat.ltb_ge in Hlen.
  match goal with |- context [fetch ?b] => set (body := b) end.
  destruct (fetch body) as [|e|[data|]] eqn:Hf; simpl;
    (split; [split; [done | intros [?|?]; [done | lia]] |]);
    (split; [intros b [= <-]; simpl; rewrite Hf; repeat split; try done;
             try (by intros (? & ?)); try (by intros ?; eexists) |]);
    (split; [|done]); split; done.
Qed.

(** X21: the level of a score, low, medium or high in this order, never
    goes down when the score goes up. *)
Theorem score_level_is_monotone (s1 s2 : Q) :
  (s1 <= s2)%Q ->
  Pages.rank (Results.getScoreLevel s1) <= Pages.rank (Results.getScoreLevel s2).
Proof.
  intros Hle. unfold Results.getScoreLevel.
  destruct (Qle_bool 8 s1) eqn:H81.
  { apply Qle_bool_iff in H81.
    assert (H82 : Qle_bool 8 s2 = true) by (apply Qle_bool_iff; by apply (Qle_trans _ s1)).
    by rewrite H82. }
  destruct (Qle_bool 6 s1) eqn:H61.
  { apply Qle_bool_iff in H61.
    assert (H62 : Qle_bool 6 s2 = true) by (apply Qle_bool_iff; by apply (Qle_trans _ s1)).
    rewrite H62. destruct (Qle_bool 8 s2); simpl; lia. }
  simpl. lia.
Qed.

Lemma score_level_is_monotone_witness :
  Pages.rank (Results.getScoreLevel (11 # 2)) <= Pages.rank (Results.getScoreLevel 6).
Proof.
  apply (score_level_is_monotone (11 # 2) 6). vm_compute. discriminate.
Defined.

(** X22: the debate page hands its source groups to the results page
    under the key [source_groups], and the results page reads the key
    [sources]: whatever sources the debate gathered, the results page
    starts with none, and the saved transcript is the header, the turns
    of the conversation and the analysis, without a section of sources. *)
Theorem saved_transcript_has_no_sources_after_a_debate
    (now : jsstring) (Number_toString : Q -> jsstring)
    (st : Page.page) (a : option Results.Analysis) :
  let opened := Results.results_page (Some (Nav.handleEndDebate st)) in
  Results.sources opened = []
  /\ Results.transcript opened = Page.conversation st
  /\ Results.sessionId opened = Page.sessionId st
  /\ Results.topic opened = Page.topic st
  /\ Results.content now Number_toString (Pages.analysed opened a)
     = Results.header now opened
       ++ mjoin (imap Results.turn_text (Page.conversation st))
       ++ Results.analysis_text Number_toString a.
Proof. repeat split. Qed.

End PagesFacts.

(** ** debate-analyze *)

Module AnalyzeFacts.

Import Edge.

Lemma join_split (sep : jsstring) (a b : list jsstring) :
  join sep (a ++ b)
  = join sep a
    ++ (if bool_decide (a = []) then [] else if bool_decide (b = []) then [] else sep)
    ++ join sep b.
Proof.
  induction a as [|x a IH]; [done|].
  destruct a as [|y a].
  - destruct b as [|z b]; simpl; [by rewrite app_nil_r|done].
  - change (join sep ((x :: y :: a) ++ b)) with (x ++ sep ++ join sep ((y :: a) ++ b)).
    rewrite IH. change (join sep (x :: y :: a)) with (x ++ sep ++ join sep (y :: a)).
    rewrite (bool_decide_eq_false_2 (y :: a = [])) by done.
    rewrite (bool_decide_eq_false_2 (x :: y :: a = [])) by done.
    by rewrite <- !app_assoc.
Qed.

(** X23: every message of the transcript reaches the coach's prompt, in
    the order of the transcript and separated by blank lines, as its
    content after the label [STUDENT] when its role is [user] and after
    the label [AI Opponent] for any other role; the transcript comes
    after the instructions and before the self-assessment. *)
Theorem coach_prompt_labels_every_turn
    (req : Analyze.AnalyzeRequest) (before later : list Continue.HistoryMessage)
    (msg : Continue.HistoryMessage) :
  Analyze.transcript req = before ++ msg :: later ->
  Analyze.prompt req
  = Analyze.systemPrompt
    ++ u "

Debate Transcript:
"
    ++ Analyze.transcriptText before
    ++ (if bool_decide (before = []) then [] else u "

")
    ++ (if bool_decide (Continue.h_role msg = u "user") then u "STUDENT" else u "AI Opponent")
    ++ u ": " ++ Continue.h_content msg
    ++ (if bool_decide (later = []) then [] else u "

")
    ++ Analyze.transcriptText later
    ++ u "

"
    ++ Analyze.self_assessment (Analyze.user_analysis req)
    ++ u "

Analyze this debate performance and return the JSON analysis.".
Proof.
  intros Ht. unfold Analyze.prompt, Analyze.userPrompt, Analyze.transcriptText.
  rewrite Ht, fmap_app, fmap_cons, join_split.
  change (Analyze.transcript_line msg :: (Analyze.transcript_line <$> later))
    with ([Analyze.transcript_line msg] ++ (Analyze.transcript_line <$> later)).
  rewrite join_split. simpl join at 2. unfold Analyze.transcript_line.
  rewrite (bool_decide_eq_false_2 ([_] = [])) by done.
  rewrite (bool_decide_eq_false_2 ([_] ++ _ = [])) by done.
  assert (Hb : bool_decide (Analyze.transcript_line <$> before = [])
               = bool_decide (before = [])) by (by destruct before).
  assert (Hl : bool_decide (Analyze.transcript_line <$> later = [])
               = bool_decide (later = [])) by (by destruct later).
  unfold Analyze.transcript_line in Hb, Hl. rewrite Hb, Hl.
  rewrite <- !app_assoc. reflexivity.
Qed.

Lemma coach_prompt_labels_every_turn_witness :
  exists pre post,
    Analyze.prompt Pages.debated = pre ++ u "AI Opponent: I disagree." ++ post.
Proof.
  pose proof (coach_prompt_labels_every_turn Pages.debated
                [{| Continue.h_role := u "user";
                    Continue.h_content :=
                      u "Universal healthcare is necessary for a just society." |}]
                [] {| Continue.h_role := u "assistant"; Continue.h_content := u "I disagree." |}
                eq_refl) as H.
  revert H. generalize (Analyze.prompt Pages.debated) as p.
  generalize Analyze.systemPrompt as sys. intros sys p ->.
  do 4 apply PromptFacts.infix_later. eexists [], _. vm_compute. reflexivity.
Defined.

(** X24: the function sends the model one request, the prompt of the
    transcript, and none when the key is missing. It replies with status
    200 exactly when the key is set, the model's answer is ok and
    readable, its first candidate has a text, and [JSON.parse] makes of
    that text a value other than [null]; the reply is then that value, as
    it is. It replies with the error of a failed analysis exactly when
    the key is set and the model's answer is not ok, with the text of
    that answer. *)
Theorem analysis_is_the_parsed_model_text
    (A : Type) (JSON_parse : jsstring -> option (option A)) (W : World)
    (req : Analyze.AnalyzeRequest) :
  let out := Analyze.serve A JSON_parse W req in
  (missing (GEMINI_API_KEY W) = true -> out = (inl Analyze.MissingKey, []))
  /\ (missing (GEMINI_API_KEY W) = false -> out.2 = [Generate (Analyze.prompt req)])
  /\ (forall analysis,
        out.1 = inr analysis
        <-> missing (GEMINI_API_KEY W) = false
            /\ exists errorText llmData text,
                 generateContent W (Analyze.prompt req) = Resp true errorText (Some llmData)
                 /\ chunk_text llmData = Some text
                 /\ JSON_parse text = Some (Some analysis))
  /\ (forall errorText,
        out.1 = inl (Analyze.AnalysisFailed errorText)
        <-> missing (GEMINI_API_KEY W) = false
            /\ exists body, generateContent W (Analyze.prompt req) = Resp false errorText body).
Proof.
  unfold Analyze.serve.
  destruct (missing (GEMINI_API_KEY W)).
  { repeat split; try done; by intros [? _]. }
  assert (Hcases :
    forall (reply : Analyze.error + A),
      (forall analysis,
          reply = inr analysis
          <-> exists errorText llmData text,
                generateContent W (Analyze.prompt req) = Resp true errorText (Some llmData)
                /\ chunk_text llmData = Some text
                /\ JSON_parse text = Some (Some analysis)) ->
      (forall errorText,
          reply = inl (Analyze.AnalysisFailed errorText)
          <-> exists body, generateContent W (Analyze.prompt req) = Resp false errorText body) ->
      (forall analysis,
            reply = inr analysis
            <-> false = false
                /\ exists errorText llmData text,
                     generateContent W (Analyze.prompt req)
                     = Resp true errorText (Some llmData)
                     /\ chunk_text llmData = Some text
                     /\ JSON_parse text = Some (Some analysis))
      /\ (forall errorText,
            reply = inl (Analyze.AnalysisFailed errorText)
            <-> false = false
                /\ exists body,
                     generateContent W (Analyze.prompt req) = Resp false errorText body)).
  { intros reply H1 H2. split.
    - intros a. rewrite H1. tauto.
    - intros e. rewrite H2. tauto. }
  split; [done|]. split; [intros _|].
  - destruct (generateContent W (Analyze.prompt req)) as [|[|] t [llmData|]]; try done.
    destruct (chunk_text llmData) as [text|]; [|done].
    by destruct (JSON_parse text) as [[a|]|].
  - destruct (generateContent W (Analyze.prompt req)) as [|[|] t [llmData|]] eqn:Hg; simpl.
    + apply Hcases.
      * intros a. split; [done|]. by intros (? & ? & ? & ? & _).
      * intros e. split; [done|]. by intros (? & ?).
    + destruct (chunk_text llmData) as [text|] eqn:Hc; simpl;
        [destruct (JSON_parse text) as [[a|]|] eqn:Hp; simpl|]; apply Hcases.
      * intros a'. split.
        -- intros [= <-]. by exists t, llmData, text.
        -- intros (? & ? & ? & [= <- <-] & Hc' & Hp'). congruence.
      * intros e. split; [done|]. by intros (? & ?).
      * intros a'. split; [done|].
        intros (? & ? & ? & [= <- <-] & Hc' & Hp'). congruence.
      * intros e. split; [done|]. by intros (? & ?).
      * intros a'. split; [done|].
        intros (? & ? & ? & [= <- <-] & Hc' & Hp'). congruence.
      * intros e. split; [done|]. by intros (? & ?).
      * intros a'. split; [done|].
        intros (? & ? & ? & [= <- <-] & Hc' & _). congruence.
      * intros e. split; [done|]. by intros (? & ?).
    + apply Hcases.
      * intros a. split; [done|]. by intros (? & ? & ? & ? & _).
      * intros e. split; [done|]. by intros (? & ?).
    + apply Hcases.
      * intros a. split; [done|]. by intros (? & ? & ? & ? & _).
      * intros e. split; [by intros [= <-]; eexists | by intros (? & [= <-])].
    + apply Hcases.
      * intros a. split; [done|]. by intros (? & ? & ? & ? & _).
      * intros e. split; [by intros [= <-]; eexists | by intros (? & [= <-])].
Qed.

End AnalyzeFacts.
